(** * ai-art-generator: the review front end and the approval state machine

    A shallow embedding of the React pages that drive the human review
    loop ([InteractiveQueue.tsx], [FlowSetup.tsx], [ContentInput.tsx]) and of
    the per-asset approval state machine the specification describes.

    React state is a record, one field per [useState]; an event handler is a
    function from the state of the render it closes over to the next state
    and the list of back-end requests it sends.  The continuation of an
    [async] handler after an [await] is a separate event, so every
    interleaving of replies the browser can produce is a sequence of events
    of the model. *)

From Stdlib Require Import ZArith Bool Lia Ascii String.
From stdpp Require Import base option list strings gmap pretty.

Local Open Scope Z_scope.

(** ** JavaScript primitives used by the pages *)

Module JS.

(** A string is truthy unless it is empty. *)
Definition truthy_string (s : string) : bool := negb (String.eqb s "").

(** Truthiness of a [string | null] value. *)
Definition truthy (v : option string) : bool :=
  match v with
  | Some s => truthy_string s
  | None => false
  end.

(** [v || undefined] on a [string | null]. *)
Definition or_undefined (v : option string) : option string :=
  if truthy v then v else None.

(** Numbers are integers here; [None] stands for [NaN].
    [n || d]: [NaN] and [0] are falsy. *)
Definition or_number (v : option Z) (d : Z) : Z :=
  match v with
  | Some n => if n =? 0 then d else n
  | None => d
  end.

(** [a ?? b] *)
Definition nullish {A} (a : option A) (b : A) : A := default b a.

Definition code (c : ascii) : Z := Z.of_nat (nat_of_ascii c).

(** Tab, line feed, vertical tab, form feed, carriage return, space. *)
Definition is_whitespace (c : ascii) : bool :=
  let n := code c in ((9 <=? n) && (n <=? 13)) || (n =? 32).

Fixpoint trimStart (s : string) : string :=
  match s with
  | String c s' => if is_whitespace c then trimStart s' else s
  | EmptyString => EmptyString
  end.

(** Value of a character as a digit in some radix up to 36. *)
Definition digit_value (c : ascii) : option Z :=
  let n := code c in
  if (48 <=? n) && (n <=? 57) then Some (n - 48)
  else if (97 <=? n) && (n <=? 122) then Some (n - 87)
  else if (65 <=? n) && (n <=? 90) then Some (n - 55)
  else None.

(** The longest prefix of radix digits, read as a number; [acc] is [None]
    until the first digit is seen. *)
Fixpoint parse_digits (radix : Z) (s : string) (acc : option Z) : option Z :=
  match s with
  | String c s' =>
      match digit_value c with
      | Some d =>
          if d <? radix
          then parse_digits radix s' (Some (default 0 acc * radix + d))
          else acc
      | None => acc
      end
  | EmptyString => acc
  end.

Definition strip_sign (s : string) : Z * string :=
  match s with
  | String "-" r => (-1, r)
  | String "+" r => (1, r)
  | _ => (1, s)
  end.

Definition strip_hex_prefix (s : string) : Z * string :=
  match s with
  | String "0" (String "x" r) => (16, r)
  | String "0" (String "X" r) => (16, r)
  | _ => (10, s)
  end.

(** [parseInt(s)] with no radix argument: leading white space is skipped,
    then an optional sign, an optional [0x], and the longest run of
    digits; no digit at all is [NaN].  Values are exact integers (the
    rounding of doubles above 2^53 is not modelled). *)
Definition parseInt (s : string) : option Z :=
  let '(sign, s1) := strip_sign (trimStart s) in
  let '(radix, s2) := strip_hex_prefix s1 in
  (fun n => sign * n) <$> parse_digits radix s2 None.

(** Relational operators on strings compare code units in sequence. *)
Definition str_ge (a b : string) : bool := String.leb b a.
Definition str_le (a b : string) : bool := String.leb a b.

Definition lower_ascii (c : ascii) : ascii :=
  let n := code c in
  if (65 <=? n) && (n <=? 90) then ascii_of_nat (nat_of_ascii c + 32) else c.

Fixpoint toLowerCase (s : string) : string :=
  match s with
  | String c s' => String (lower_ascii c) (toLowerCase s')
  | EmptyString => EmptyString
  end.

(** [xs.findIndex(p)]: the first index whose element satisfies [p], or -1. *)
Fixpoint findIndex {A} (p : A -> bool) (xs : list A) : Z :=
  match xs with
  | [] => -1
  | x :: xs' =>
      if p x then 0
      else let i := findIndex p xs' in if i <? 0 then -1 else i + 1
  end.

(** [xs[i]] for a number [i]: [undefined] outside the array. *)
Definition index {A} (xs : list A) (i : Z) : option A :=
  if i <? 0 then None else xs !! Z.to_nat i.

(** [xs.slice(1)] *)
Definition slice1 {A} (xs : list A) : list A := drop 1 xs.

(** Values of type [unknown] that arrive as JSON. *)
#[local] Unset Elimination Schemes.
Inductive Json :=
| JNull
| JBool (b : bool)
| JNum (n : Z)
| JStr (s : string)
| JArr (items : list Json)
| JObj (fields : list (string * Json)).
#[local] Set Elimination Schemes.


(** A computation that may throw. *)
Inductive Result (A : Type) :=
| Ok (value : A)
| Throws.
Arguments Ok {A} value.
Arguments Throws {A}.

(** [s.trimEnd()] and [s.trim()], on the white space of [is_whitespace]. *)
Fixpoint trimEnd (s : string) : string :=
  match s with
  | String c s' =>
      match trimEnd s' with
      | EmptyString =>
          if is_whitespace c then EmptyString else String c EmptyString
      | r => String c r
      end
  | EmptyString => EmptyString
  end.

Definition trim (s : string) : string := trimEnd (trimStart s).

(** [s.split(sep)] for a separator of one character: the pieces between
    the separators, so never an empty array. *)
Fixpoint split (sep : ascii) (s : string) : list string :=
  match s with
  | String c s' =>
      if Ascii.eqb c sep then EmptyString :: split sep s'
      else
        match split sep s' with
        | piece :: pieces => String c piece :: pieces
        | [] => [String c EmptyString]
        end
  | EmptyString => [EmptyString]
  end.

(** [s.startsWith(p)] and [s.includes(sub)] *)
Definition startsWith (s p : string) : bool := String.prefix p s.

Fixpoint includes (s sub : string) : bool :=
  String.prefix sub s
  || match s with
     | String _ s' => includes s' sub
     | EmptyString => false
     end.

(** [xs.splice(start, 0, x)]: [start] past the end appends. *)
Definition splice_insert {A} (start : nat) (x : A) (xs : list A) : list A :=
  take start xs ++ x :: drop start xs.

End JS.

(** ** [types/index.ts] *)

Module PipelineStep.
Record t := mk {
  id : string;
  type : string;
  provider : option string;
  prompt_template : option string;
  requires_approval : bool;
  variations : Z;
  parallel_with : option (list string);
  config : gmap string JS.Json
}.

(** [{ ...s, variations: v }] *)
Definition with_variations (v : Z) (s : t) : t :=
  mk (id s) (type s) (provider s) (prompt_template s) (requires_approval s)
     v (parallel_with s) (config s).

(** [Partial<PipelineStep>]: an absent key is [None]. *)
Record partial := mk_partial {
  p_id : option string;
  p_type : option string;
  p_provider : option string;
  p_prompt_template : option string;
  p_requires_approval : option bool;
  p_variations : option Z;
  p_parallel_with : option (list string);
  p_config : option (gmap string JS.Json)
}.

Definition no_updates : partial :=
  mk_partial None None None None None None None None.

(** [{ ...s, ...u }]: the keys present in [u] win. *)
Definition spread (s : t) (u : partial) : t :=
  mk (default (id s) (p_id u))
     (default (type s) (p_type u))
     (match p_provider u with Some v => Some v | None => provider s end)
     (match p_prompt_template u with Some v => Some v | None => prompt_template s end)
     (default (requires_approval s) (p_requires_approval u))
     (default (variations s) (p_variations u))
     (match p_parallel_with u with Some v => Some v | None => parallel_with s end)
     (default (config s) (p_config u)).
End PipelineStep.

Inductive ApprovalType := choose_one | accept_reject.

Inductive OptionType := image | text.

Module GeneratedOption.
Record t := mk {
  id : string;
  type : OptionType;
  image_path : option string;
  thumbnail_path : option string;
  image_data_url : option string;
  text_content : option string;
  prompt_used : option string;
  generation_params : gmap string JS.Json;
  created_at : string
}.
End GeneratedOption.

Module ApprovalItem.
Record t := mk {
  id : string;
  asset_id : string;
  asset_description : string;
  step_id : string;
  step_name : string;
  step_index : Z;
  total_steps : Z;
  approval_type : ApprovalType;
  options : list GeneratedOption.t;
  context : gmap string JS.Json;
  attempt : Z;
  max_attempts : Z;
  created_at : string
}.
End ApprovalItem.

Module GeneratingItem.
Record t := mk {
  id : string;
  asset_id : string;
  asset_description : string;
  step_id : string;
  step_name : string;
  progress : Z;
  started_at : string
}.

Definition with_progress (p : Z) (g : t) : t :=
  mk (id g) (asset_id g) (asset_description g) (step_id g) (step_name g)
     p (started_at g).
End GeneratingItem.

Module QueueStatus.
Record t := mk {
  total_assets : Z;
  completed_assets : Z;
  failed_assets : Z;
  awaiting_approval : Z;
  currently_generating : Z;
  pending : Z;
  is_running : bool;
  is_paused : bool
}.
End QueueStatus.

Module ApprovalDecision.
Record t := mk {
  item_id : string;
  approved : bool;
  selected_option_id : option string;
  regenerate : option bool
}.
End ApprovalDecision.

(** ** [pages/InteractiveQueue.tsx]: the [InteractiveQueue] component *)

Module InteractiveQueue.

(** The four replies [loadQueue] awaits together: the status, [nextRes.item],
    [allRes.items] and [genRes.items]. *)
Record QueueResponses := mkResponses {
  statusRes : QueueStatus.t;
  nextRes : option ApprovalItem.t;
  allRes : list ApprovalItem.t;
  genRes : list GeneratingItem.t
}.

Record State := mkState {
  status : option QueueStatus.t;
  currentItem : option ApprovalItem.t;
  pendingItems : list ApprovalItem.t;
  generatingItems : list GeneratingItem.t;
  selectedOption : option string;
  loading : bool;
  zoomedImage : option string;
  showSidebar : bool
}.

Definition initial : State := mkState None None [] [] None false None true.

Definition setStatus (v : option QueueStatus.t) (st : State) : State :=
  mkState v (currentItem st) (pendingItems st) (generatingItems st)
          (selectedOption st) (loading st) (zoomedImage st) (showSidebar st).

Definition setCurrentItem (v : option ApprovalItem.t) (st : State) : State :=
  mkState (status st) v (pendingItems st) (generatingItems st)
          (selectedOption st) (loading st) (zoomedImage st) (showSidebar st).

Definition setPendingItems (v : list ApprovalItem.t) (st : State) : State :=
  mkState (status st) (currentItem st) v (generatingItems st)
          (selectedOption st) (loading st) (zoomedImage st) (showSidebar st).

Definition setGeneratingItems (v : list GeneratingItem.t) (st : State) : State :=
  mkState (status st) (currentItem st) (pendingItems st) v
          (selectedOption st) (loading st) (zoomedImage st) (showSidebar st).

Definition setSelectedOption (v : option string) (st : State) : State :=
  mkState (status st) (currentItem st) (pendingItems st) (generatingItems st)
          v (loading st) (zoomedImage st) (showSidebar st).

Definition setLoading (v : bool) (st : State) : State :=
  mkState (status st) (currentItem st) (pendingItems st) (generatingItems st)
          (selectedOption st) v (zoomedImage st) (showSidebar st).

Definition setZoomedImage (v : option string) (st : State) : State :=
  mkState (status st) (currentItem st) (pendingItems st) (generatingItems st)
          (selectedOption st) (loading st) v (showSidebar st).

Definition setShowSidebar (v : bool) (st : State) : State :=
  mkState (status st) (currentItem st) (pendingItems st) (generatingItems st)
          (selectedOption st) (loading st) (zoomedImage st) v.

(** The requests of [api/client.ts] that change the back end. *)
Inductive Request :=
| submitInteractiveApproval (decision : ApprovalDecision.t)
| skipApproval (itemId : string)
| regenerateItem (itemId : string)
| pauseInteractive
| resumeInteractive
| stopInteractive.

(** What running a handler to its first [await] does: the state it leaves
    and the requests it sent, or the [TypeError] of reading a property of
    [undefined]. *)
Inductive Outcome :=
| Done (st : State) (sent : list Request)
| TypeError.

Definition is_choose_one (item : ApprovalItem.t) : bool :=
  match ApprovalItem.approval_type item with
  | choose_one => true
  | accept_reject => false
  end.

Definition is_accept_reject (item : ApprovalItem.t) : bool :=
  match ApprovalItem.approval_type item with
  | choose_one => false
  | accept_reject => true
  end.

(** The body of [loadQueue] once [Promise.all] settles; [None] is a rejected
    promise, which the [catch] only logs.  Reading [options[0]] sits inside
    the same [try]. *)
Definition loadQueue (st : State) (replies : option QueueResponses) : State :=
  match replies with
  | None => st
  | Some r =>
      let st := setStatus (Some (statusRes r)) st in
      let st := setCurrentItem (nextRes r) st in
      let st := setPendingItems (JS.slice1 (allRes r)) st in
      let st := setGeneratingItems (genRes r) st in
      match nextRes r with
      | Some item =>
          if is_choose_one item
             && (0 <? Z.of_nat (length (ApprovalItem.options item)))
          then
            match JS.index (ApprovalItem.options item) 0 with
            | Some o => setSelectedOption (Some (GeneratedOption.id o)) st
            | None => st
            end
          else setSelectedOption None st
      | None => st
      end
  end.

(** The index [navigateOption] computes before it reads the option. *)
Definition navigateIndex (options : list GeneratedOption.t)
    (selected : option string) (direction : Z) : Z :=
  let currentIndex :=
    if JS.truthy selected
    then JS.findIndex
           (fun o => bool_decide (Some (GeneratedOption.id o) = selected))
           options
    else -1 in
  let newIndex := currentIndex + direction in
  let newIndex :=
    if newIndex <? 0 then Z.of_nat (length options) - 1 else newIndex in
  let newIndex :=
    if newIndex >=? Z.of_nat (length options) then 0 else newIndex in
  newIndex.

Definition navigateOption (direction : Z) (st : State) : Outcome :=
  match currentItem st with
  | None => Done st []
  | Some item =>
      let options := ApprovalItem.options item in
      if Z.of_nat (length options) =? 0 then Done st []
      else
        match JS.index options (navigateIndex options (selectedOption st) direction) with
        | Some o => Done (setSelectedOption (Some (GeneratedOption.id o)) st) []
        | None => TypeError
        end
  end.

Definition handleApprove (st : State) : Outcome :=
  match currentItem st with
  | None => Done st []
  | Some item =>
      Done (setLoading true st)
           [submitInteractiveApproval
              (ApprovalDecision.mk (ApprovalItem.id item) true
                 (JS.or_undefined (selectedOption st)) None)]
  end.

Definition handleReject (st : State) : Outcome :=
  match currentItem st with
  | None => Done st []
  | Some item =>
      Done (setLoading true st)
           [submitInteractiveApproval
              (ApprovalDecision.mk (ApprovalItem.id item) false None (Some true))]
  end.

Definition handleRegenerate (st : State) : Outcome :=
  match currentItem st with
  | None => Done st []
  | Some item => Done (setLoading true st) [regenerateItem (ApprovalItem.id item)]
  end.

Definition handleSkip (st : State) : Outcome :=
  match currentItem st with
  | None => Done st []
  | Some item => Done (setLoading true st) [skipApproval (ApprovalItem.id item)]
  end.

Definition handlePauseResume (st : State) : Outcome :=
  match status st with
  | Some s =>
      if QueueStatus.is_paused s then Done st [resumeInteractive]
      else Done st [pauseInteractive]
  | None => Done st [pauseInteractive]
  end.

Definition handleStop (st : State) : Outcome := Done st [stopInteractive].

Definition handleKeyDown (st : State) (key : string) : Outcome :=
  match currentItem st with
  | None => Done st []
  | Some item =>
      if loading st then Done st []
      else if JS.str_ge key "1" && JS.str_le key "9" then
        match JS.parseInt key with
        | Some n =>
            let index := n - 1 in
            if index <? Z.of_nat (length (ApprovalItem.options item)) then
              match JS.index (ApprovalItem.options item) index with
              | Some o => Done (setSelectedOption (Some (GeneratedOption.id o)) st) []
              | None => TypeError
              end
            else Done st []
        | None => Done st []
        end
      else
        let k := JS.toLowerCase key in
        if String.eqb k "y" || String.eqb k "enter" then
          if JS.truthy (selectedOption st) || is_accept_reject item
          then handleApprove st
          else Done st []
        else if String.eqb k "n" then handleReject st
        else if String.eqb k "r" then handleRegenerate st
        else if String.eqb k "s" then handleSkip st
        else if String.eqb k "arrowleft" then navigateOption (-1) st
        else if String.eqb k "arrowright" then navigateOption 1 st
        else Done st []
  end.

(** The action buttons under the options grid. *)
Inductive Button := BtnSelect | BtnRegenerate | BtnAccept | BtnReject | BtnSkip.

Definition rendered (st : State) (b : Button) : bool :=
  match currentItem st with
  | None => false
  | Some item =>
      match b with
      | BtnSelect | BtnRegenerate => is_choose_one item
      | BtnAccept | BtnReject => negb (is_choose_one item)
      | BtnSkip => true
      end
  end.

Definition disabled (st : State) (b : Button) : bool :=
  match b with
  | BtnSelect => negb (JS.truthy (selectedOption st)) || loading st
  | _ => loading st
  end.

Definition onClick (b : Button) : State -> Outcome :=
  match b with
  | BtnSelect | BtnAccept => handleApprove
  | BtnRegenerate => handleRegenerate
  | BtnReject => handleReject
  | BtnSkip => handleSkip
  end.

Definition click (st : State) (b : Button) : Outcome :=
  if rendered st b && negb (disabled st b) then onClick b st else Done st [].

(** A click on the card [renderOption] draws for [options[index]]. *)
Definition clickOption (st : State) (index : nat) : Outcome :=
  match currentItem st with
  | None => Done st []
  | Some item =>
      match ApprovalItem.options item !! index with
      | Some o => Done (setSelectedOption (Some (GeneratedOption.id o)) st) []
      | None => Done st []
      end
  end.

(** [onProgress] of the WebSocket hook. *)
Definition onProgress (assetId stepId : string) (progress : Z) (st : State) : State :=
  setGeneratingItems
    ((fun item =>
        if String.eqb (GeneratingItem.asset_id item) assetId
           && String.eqb (GeneratingItem.step_id item) stepId
        then GeneratingItem.with_progress progress item
        else item) <$> generatingItems st)
    st.

Inductive Event :=
| KeyDown (key : string)
| Click (b : Button)
| ClickOption (index : nat)
| ClickPauseResume
| ClickStop
| ZoomImage (url : option string)
| ToggleSidebar
| QueueLoaded (replies : option QueueResponses)
| RequestSettled
| StatusUpdate (newStatus : QueueStatus.t)
| Progress (assetId stepId : string) (progress : Z).

Definition step (st : State) (e : Event) : Outcome :=
  match e with
  | KeyDown key => handleKeyDown st key
  | Click b => click st b
  | ClickOption i => clickOption st i
  | ClickPauseResume => handlePauseResume st
  | ClickStop => handleStop st
  | ZoomImage url => Done (setZoomedImage url st) []
  | ToggleSidebar => Done (setShowSidebar (negb (showSidebar st)) st) []
  | QueueLoaded replies => Done (loadQueue st replies) []
  | RequestSettled => Done (setLoading false st) []
  | StatusUpdate s => Done (setStatus (Some s) st) []
  | Progress a s p => Done (onProgress a s p st) []
  end.

(** The component over a sequence of events, from the oldest.  An error
    thrown by a handler is reported by the browser and leaves the state as
    it was. *)
Fixpoint run (st : State) (events : list Event) : State * list Request :=
  match events with
  | [] => (st, [])
  | e :: rest =>
      match step st e with
      | Done st' sent =>
          let '(final, later) := run st' rest in (final, sent ++ later)
      | TypeError => run st rest
      end
  end.

(** *** The empty-state panel, shown while [currentItem] is [null] *)

Inductive EmptyView :=
| Generating (inProgress outstanding : Z)
| ProcessingQueue (itemsPending : Z) (workerWarning : bool)
| WaitingForWorker (outstanding : Z) (workerWarning : bool)
| LoadingApprovals (awaitingReview : Z)
| WorkOutstanding (outstanding done total : Z) (notRunningWarning : bool)
| AllDone (completed : Z) (failed : option Z)
| NoAssets.

(** [status?.field || 0] *)
Definition count (status : option QueueStatus.t) (field : QueueStatus.t -> Z) : Z :=
  JS.or_number (field <$> status) 0.

Definition emptyStateView (status : option QueueStatus.t) : EmptyView :=
  let total := count status QueueStatus.total_assets in
  let done :=
    count status QueueStatus.completed_assets
    + count status QueueStatus.failed_assets in
  let outstanding := total - done in
  let isGenerating := count status QueueStatus.currently_generating in
  let isPending := count status QueueStatus.pending in
  let isAwaiting := count status QueueStatus.awaiting_approval in
  let isRunning :=
    match status with Some s => QueueStatus.is_running s | None => false end in
  if isGenerating >? 0 then Generating isGenerating outstanding
  else if (isPending >? 0) || (isRunning && (outstanding >? 0)) then
    if isPending >? 0 then ProcessingQueue isPending (negb isRunning)
    else WaitingForWorker outstanding (negb isRunning)
  else if isAwaiting >? 0 then LoadingApprovals isAwaiting
  else if outstanding >? 0 then
    WorkOutstanding outstanding done total (negb isRunning)
  else if (total >? 0) && (done >=? total) then
    AllDone (count status QueueStatus.completed_assets)
            (if count status QueueStatus.failed_assets >? 0
             then QueueStatus.failed_assets <$> status else None)
  else NoAssets.

(** What [<main>] shows. *)
Inductive MainArea :=
| EmptyState (view : EmptyView)
| Review (item : ApprovalItem.t) (selected : option string).

Definition mainArea (st : State) : MainArea :=
  match currentItem st with
  | None => EmptyState (emptyStateView (status st))
  | Some item => Review item (selectedOption st)
  end.


(** The pending items the sidebar lists: the first five, and how many more
    there are. *)
Definition sidebarPending (st : State) : list ApprovalItem.t * option Z :=
  (take 5 (pendingItems st),
   if Z.of_nat (length (pendingItems st)) >? 5
   then Some (Z.of_nat (length (pendingItems st)) - 5) else None).

End InteractiveQueue.

(** ** [pages/InteractiveQueue.tsx]: the [ArtDirection] component

    The functions below are the updaters the component passes to
    [setUpdatedPipeline]; each maps the previous pipeline to the next. *)

Module ArtDirection.

(** [updateStepPrompt] *)
Definition updateStepPrompt (stepId promptTemplate : string)
    (prev : list PipelineStep.t) : list PipelineStep.t :=
  (fun step =>
     if String.eqb (PipelineStep.id step) stepId
     then PipelineStep.spread step
            (PipelineStep.mk_partial None None None (Some promptTemplate)
               None None None None)
     else step) <$> prev.

(** [onChange] of the Variations input of the step [stepId];
    [value] is [e.target.value]. *)
Definition onVariationsChange (stepId value : string)
    (prev : list PipelineStep.t) : list PipelineStep.t :=
  let val := JS.or_number (JS.parseInt value) 1 in
  (fun s =>
     if String.eqb (PipelineStep.id s) stepId
     then PipelineStep.with_variations val s
     else s) <$> prev.

(** [onChange] of the Approval Mode select of the step [stepId]. *)
Definition onApprovalModeChange (stepId value : string)
    (prev : list PipelineStep.t) : list PipelineStep.t :=
  let isChoose := String.eqb value "choose" in
  (fun s =>
     if String.eqb (PipelineStep.id s) stepId
     then PipelineStep.with_variations
            (if isChoose then Z.max 2 (PipelineStep.variations s) else 1) s
     else s) <$> prev.

(** The [value] of the Approval Mode select. *)
Definition approvalMode (step : PipelineStep.t) : string :=
  if PipelineStep.variations step >? 1 then "choose" else "accept".

(** The label of the option with that value. *)
Definition approvalModeLabel (value : string) : string :=
  if String.eqb value "choose" then "Choose 1 of N" else "Accept/Reject".

End ArtDirection.

(** ** [pages/FlowSetup.tsx] *)

Module FlowSetup.

Record StepTemplate := mkTemplate {
  type : string;
  label : string;
  description : string;
  defaultConfig : PipelineStep.partial
}.

(** [defaultConfig] objects carry these four keys at most. *)
Definition config (requires_approval : bool) (variations : Z)
    (provider prompt_template : option string) : PipelineStep.partial :=
  PipelineStep.mk_partial None None provider prompt_template
    (Some requires_approval) (Some variations) None None.

(** The icons of the templates are presentation only and left out. *)
Definition STEP_TEMPLATES : list StepTemplate := [
  mkTemplate "research" "AI Research"
    "Research the concept for richer context"
    (config false 1 (Some "tavily") None);
  mkTemplate "generate_name" "Generate Name"
    "Generate a creative name for the concept"
    (config true 4 (Some "gemini")
       (Some "Generate a creative name for: {description}"));
  mkTemplate "generate_image" "Generate Image"
    "Generate main artwork"
    (config true 4 (Some "gemini") (Some "{description}"));
  mkTemplate "generate_sprite" "Generate Sprite"
    "Generate pixel art sprite"
    (config true 4 (Some "gemini")
       (Some "Pixel art sprite, 32-bit style. {description}. Front-facing, game asset, clean edges."));
  mkTemplate "generate_text" "Generate Description"
    "Generate a text description"
    (config true 2 (Some "gemini")
       (Some "Write a detailed description for: {description}"));
  mkTemplate "remove_background" "Remove Background"
    "Remove background from the previous image"
    (config false 1 None None)
]%string.

(** [addStep]; [now] is the value of [Date.now()]. *)
Definition addStep (template : StepTemplate) (now : Z)
    (prev : list PipelineStep.t) : list PipelineStep.t :=
  let newStep :=
    PipelineStep.mk
      (type template +:+ "_" +:+ pretty now)
      (type template)
      (PipelineStep.p_provider (defaultConfig template))
      (PipelineStep.p_prompt_template (defaultConfig template))
      (match PipelineStep.p_requires_approval (defaultConfig template) with
       | Some true => true
       | _ => false
       end)
      (JS.or_number (PipelineStep.p_variations (defaultConfig template)) 1)
      None
      ∅ in
  prev ++ [newStep].

(** [removeStep]: [prev.filter((_, i) => i !== index)], the list without
    its position [index]. *)
Definition removeStep (index : nat) (prev : list PipelineStep.t) : list PipelineStep.t :=
  delete index prev.

(** [updateStep] *)
Definition updateStep (index : nat) (updates : PipelineStep.partial)
    (prev : list PipelineStep.t) : list PipelineStep.t :=
  imap (fun i step =>
          if bool_decide (i = index) then PipelineStep.spread step updates
          else step) prev.

(** [onChange] of the Variations input of the step at [index]. *)
Definition onVariationsChange (index : nat) (value : string)
    (prev : list PipelineStep.t) : list PipelineStep.t :=
  updateStep index
    (PipelineStep.mk_partial None None None None None
       (Some (JS.or_number (JS.parseInt value) 1)) None None)
    prev.

(** [onChange] of the Requires approval checkbox. *)
Definition onRequiresApprovalChange (index : nat) (checked : bool)
    (prev : list PipelineStep.t) : list PipelineStep.t :=
  updateStep index
    (PipelineStep.mk_partial None None None None (Some checked) None None None)
    prev.

(** [step.f ?? template?.defaultConfig.f] *)
Definition presetField {A} (f : PipelineStep.partial -> option A)
    (step : PipelineStep.partial) (template : option StepTemplate) : option A :=
  match f step with
  | Some v => Some v
  | None => template ≫= (fun t => f (defaultConfig t))
  end.

(** [applyPreset]: the steps a preset lists, completed from the template
    of the same type. *)
Definition presetStep (i : nat) (step : PipelineStep.partial) : PipelineStep.t :=
  let ty := default "undefined"%string (PipelineStep.p_type step) in
  let template :=
    snd <$> list_find (fun t => Some (type t) = PipelineStep.p_type step)
              STEP_TEMPLATES in
  PipelineStep.mk
    (match PipelineStep.p_id step with
     | Some s => if JS.truthy_string s then s else ty +:+ "_" +:+ pretty i
     | None => ty +:+ "_" +:+ pretty i
     end)
    ty
    (presetField PipelineStep.p_provider step template)
    (presetField PipelineStep.p_prompt_template step template)
    (JS.nullish (presetField PipelineStep.p_requires_approval step template) false)
    (JS.nullish (presetField PipelineStep.p_variations step template) 1)
    None
    ∅.

Definition applyPreset (preset : list PipelineStep.partial) : list PipelineStep.t :=
  imap presetStep preset.

Definition preset_entry (type id : string) (variations : option Z)
    (prompt_template : option string) : PipelineStep.partial :=
  PipelineStep.mk_partial (Some id) (Some type) None prompt_template
    None variations None None.

Definition PRESETS : list (string * list PipelineStep.partial) := [
  ("Magic Card", [
     preset_entry "research" "research" None None;
     preset_entry "generate_name" "name" (Some 4) None;
     preset_entry "generate_image" "portrait" (Some 4) None;
     preset_entry "generate_text" "flavor" (Some 2)
       (Some "Write flavor text for a magic card: {description}")]);
  ("Game Sprite", [
     preset_entry "generate_sprite" "sprite" (Some 4) None;
     preset_entry "remove_background" "sprite_nobg" None None]);
  ("Character Sheet", [
     preset_entry "research" "research" None None;
     preset_entry "generate_name" "name" (Some 4) None;
     preset_entry "generate_image" "portrait" (Some 4) None;
     preset_entry "generate_sprite" "sprite" (Some 4) None;
     preset_entry "remove_background" "sprite_nobg" None None;
     preset_entry "generate_text" "bio" (Some 2)
       (Some "Write a character biography: {description}")])
]%string.

End FlowSetup.

(** ** [pages/ContentInput.tsx]: the classic [ApprovalQueue] component *)

Module ApprovalQueue.

Inductive AssetStatus :=
| pending | processing | awaiting_approval | approved | rejected
| completed | failed.

Record GeneratedArtifact := mkArtifact {
  type : string;
  path : option string;
  content : option string;
  metadata : gmap string JS.Json;
  artifact_created_at : string
}.

Record StepResult := mkStepResult {
  result_step_id : string;
  result_status : AssetStatus;
  variations : list GeneratedArtifact;
  selected_index : option Z;
  result_approved : bool;
  error : option string;
  started_at : option string;
  completed_at : option string
}.

Record Asset := mkAsset {
  id : string;
  input_description : string;
  input_metadata : gmap string JS.Json;
  status : AssetStatus;
  current_step : option string;
  results : gmap string StepResult;
  created_at : string;
  updated_at : string
}.

Record QueueItem := mkQueueItem {
  asset : Asset;
  step_id : string;
  step_result : StepResult;
  step_config : option PipelineStep.t
}.

(** The body of the POST to [/approve]. *)
Record ApprovalData := mkData {
  data_asset_id : string;
  data_step_id : string;
  data_approved : bool;
  data_selected_index : option Z;
  data_regenerate : option bool;
  data_modified_prompt : option string
}.

Record State := mkState {
  currentIndex : nat;
  selectedVariation : option nat;
  loading : bool;
  modifiedPrompt : string
}.

Definition initial : State := mkState 0 None false "".

Definition setSelectedVariation (v : option nat) (st : State) : State :=
  mkState (currentIndex st) v (loading st) (modifiedPrompt st).

Definition setLoading (v : bool) (st : State) : State :=
  mkState (currentIndex st) (selectedVariation st) v (modifiedPrompt st).

Definition setModifiedPrompt (v : string) (st : State) : State :=
  mkState (currentIndex st) (selectedVariation st) (loading st) v.

Inductive Effect :=
| submitApproval (data : ApprovalData)
| onRefresh.

(** [queue[currentIndex]], read on every render of a non-empty queue. *)
Definition currentItem (queue : list QueueItem) (st : State) : option QueueItem :=
  queue !! currentIndex st.

(** [handleReject(regenerate)] up to its [await]. *)
Definition handleReject_send (item : QueueItem) (regenerate : bool)
    (st : State) : State * list Effect :=
  (setLoading true st,
   [submitApproval
      (mkData (id (asset item)) (step_id item) false None (Some regenerate)
         (if regenerate
          then (if JS.truthy_string (modifiedPrompt st)
                then Some (modifiedPrompt st) else None)
          else None))]).

(** The rest of [handleReject] once [submitApproval] settles: [ok] tells
    whether the promise resolved; a rejection goes to [catch], and
    [finally] runs on both paths. *)
Definition handleReject_settle (ok : bool) (st : State) : State * list Effect :=
  if ok
  then (setLoading false (setSelectedVariation None (setModifiedPrompt "" st)),
        [onRefresh])
  else (setLoading false st, []).

Definition handleReject (item : QueueItem) (regenerate ok : bool)
    (st : State) : State * list Effect :=
  let '(st1, sent) := handleReject_send item regenerate st in
  let '(st2, after) := handleReject_settle ok st1 in
  (st2, sent ++ after).

(** [handleApprove], in the same two halves. *)
Definition handleApprove_send (item : QueueItem) (st : State) : State * list Effect :=
  match selectedVariation st with
  | None => (st, [])
  | Some v =>
      (setLoading true st,
       [submitApproval
          (mkData (id (asset item)) (step_id item) true (Some (Z.of_nat v))
             None None)])
  end.

Definition handleApprove_settle (ok : bool) (st : State) : State * list Effect :=
  if ok
  then (setLoading false (setSelectedVariation None st), [onRefresh])
  else (setLoading false st, []).


Definition setCurrentIndex (v : nat) (st : State) : State :=
  mkState v (selectedVariation st) (loading st) (modifiedPrompt st).

(** The Previous button: [Math.max(0, currentIndex - 1)], disabled on the
    first item. *)
Definition previousDisabled (st : State) : bool :=
  bool_decide (currentIndex st = 0%nat).

Definition clickPrevious (st : State) : State :=
  if previousDisabled st then st
  else setCurrentIndex (Z.to_nat (Z.max 0 (Z.of_nat (currentIndex st) - 1))) st.

(** The Next button: [Math.min(queue.length - 1, currentIndex + 1)],
    disabled on the last item. *)
Definition nextDisabled (queue : list QueueItem) (st : State) : bool :=
  bool_decide (Z.of_nat (currentIndex st) = Z.of_nat (length queue) - 1).

Definition clickNext (queue : list QueueItem) (st : State) : State :=
  if nextDisabled queue st then st
  else setCurrentIndex
         (Z.to_nat (Z.min (Z.of_nat (length queue) - 1)
                          (Z.of_nat (currentIndex st) + 1))) st.

(** A click on the card of variation [index]. *)
Definition clickVariation (index : nat) (st : State) : State :=
  setSelectedVariation (Some index) st.

(** What the component renders: the empty message for an empty queue, and
    otherwise the item at [currentIndex], whose destructuring throws when
    there is none. *)
Inductive View :=
| NoItems
| Reviewing (item : QueueItem) (position total : nat)
    (approveDisabled : bool).

Definition render (queue : list QueueItem) (st : State) : JS.Result View :=
  if bool_decide (length queue = 0%nat) then JS.Ok NoItems
  else
    match currentItem queue st with
    | Some item =>
        JS.Ok (Reviewing item (currentIndex st + 1) (length queue)
                 (negb (bool_decide (is_Some (selectedVariation st))) || loading st))
    | None => JS.Throws
    end.

(** [handleApprove] from click to settled request. *)
Definition handleApprove (item : QueueItem) (ok : bool)
    (st : State) : State * list Effect :=
  match selectedVariation st with
  | None => (st, [])
  | Some _ =>
      let '(st1, sent) := handleApprove_send item st in
      let '(st2, after) := handleApprove_settle ok st1 in
      (st2, sent ++ after)
  end.

End ApprovalQueue.

(** ** The asset state machine

    Modelled from the spec: the back end that owns the asset state machine
    (the orchestrator and the approval-decision handler, sections 4.2 and
    4.3 of the specification) is not among the sources; only the front end
    that shows [attempt] and [max_attempts] is.  The transitions below are
    the transition rules of section 4.2 for a step whose selection mode is
    accept/reject.  [generations] counts the generation attempts started
    for the current step: it is the observable the attempt bound speaks
    about and is never read by a transition. *)

Module AssetStateMachine.

Inductive AssetState :=
| PENDING | GENERATING | AWAITING_APPROVAL | APPROVED | REJECTED
| COMPLETED | FAILED | SKIPPED.

(** What exhausting the attempts does: skip the asset, or fail it hard. *)
Inductive ExhaustionPolicy := skip_asset | hard_fail.

Record Asset := mk {
  state : AssetState;
  attempt : nat;
  generations : nat;
  remaining_steps : nat
}.

Inductive Input :=
| dispatch          (* the orchestrator starts a generation *)
| generated         (* the variations are ready; the item is enqueued *)
| provider_error    (* unrecoverable error of the provider *)
| accept            (* human decision *)
| reject            (* human decision *)
| skip              (* explicit skip *)
| advance.          (* the orchestrator moves past an approved step *)

(** [attempt] starts at 1. *)
Definition initial (remaining : nat) : Asset := mk PENDING 1 0 remaining.

Definition terminal (s : AssetState) : bool :=
  match s with
  | COMPLETED | FAILED | SKIPPED => true
  | _ => false
  end.

Definition exhausted (policy : ExhaustionPolicy) : AssetState :=
  match policy with
  | skip_asset => SKIPPED
  | hard_fail => FAILED
  end.

Definition enter (s : AssetState) (a : Asset) : Asset :=
  mk s (attempt a) (generations a) (remaining_steps a).

Definition transition (maxAttempts : nat) (policy : ExhaustionPolicy)
    (a : Asset) (i : Input) : Asset :=
  match state a, i with
  | PENDING, dispatch =>
      mk GENERATING (attempt a) (S (generations a)) (remaining_steps a)
  | GENERATING, generated => enter AWAITING_APPROVAL a
  | GENERATING, provider_error => enter FAILED a
  | AWAITING_APPROVAL, accept => enter APPROVED a
  | AWAITING_APPROVAL, reject =>
      if (maxAttempts <=? attempt a)%nat
      then enter (exhausted policy) a
      else enter REJECTED a
  | REJECTED, dispatch =>
      mk GENERATING (S (attempt a)) (S (generations a)) (remaining_steps a)
  | APPROVED, advance =>
      match remaining_steps a with
      | O => enter COMPLETED a
      | S r => mk PENDING 1 0 r
      end
  | PENDING, skip => enter SKIPPED a
  | AWAITING_APPROVAL, skip => enter SKIPPED a
  | _, _ => a
  end.

Definition run (maxAttempts : nat) (policy : ExhaustionPolicy)
    (a : Asset) (inputs : list Input) : Asset :=
  foldl (transition maxAttempts policy) a inputs.

(** The run in which the orchestrator is never idle and the reviewer
    rejects whatever is shown: the next input in each state, if any. *)
Definition reject_everything (a : Asset) : option Input :=
  match state a with
  | PENDING | REJECTED => Some dispatch
  | GENERATING => Some generated
  | AWAITING_APPROVAL => Some reject
  | APPROVED => Some advance
  | COMPLETED | FAILED | SKIPPED => None
  end.

Fixpoint drive (maxAttempts : nat) (policy : ExhaustionPolicy)
    (fuel : nat) (a : Asset) : Asset :=
  match fuel with
  | O => a
  | S fuel' =>
      match reject_everything a with
      | Some i => drive maxAttempts policy fuel' (transition maxAttempts policy a i)
      | None => a
      end
  end.

End AssetStateMachine.

(** ** [api/client.ts]: the addresses built from [API_BASE] *)

Module Client.

(** [getFileUrl] *)
Definition getFileUrl (API_BASE filePath : string) : string :=
  API_BASE +:+ "/files/" +:+ filePath.

(** [API_BASE.replace(/^http/, "ws")] *)
Definition replace_http_with_ws (base : string) : string :=
  match base with
  | String "h" (String "t" (String "t" (String "p" rest))) => "ws" +:+ rest
  | _ => base
  end.

(** [getWebSocketUrl] *)
Definition getWebSocketUrl (API_BASE : string) : string :=
  replace_http_with_ws API_BASE +:+ "/ws".

End Client.

(** ** [pages/FlowSetup.tsx]: reordering by drag and drop *)

Module FlowSetupDrag.

Record State := mkState {
  pipeline : list PipelineStep.t;
  draggedIndex : option nat
}.

Definition handleDragStart (index : nat) (st : State) : State :=
  mkState (pipeline st) (Some index).

(** [handleDragOver]: the dragged step is cut out and put back at [index].
    A [draggedIndex] past the end would cut nothing out and put [undefined]
    into the pipeline, on which the next render throws; that is [Throws]. *)
Definition handleDragOver (index : nat) (st : State) : JS.Result State :=
  match draggedIndex st with
  | None => JS.Ok st
  | Some dragged =>
      if bool_decide (dragged = index) then JS.Ok st
      else
        match pipeline st !! dragged with
        | Some removed =>
            JS.Ok (mkState
                     (JS.splice_insert index removed (delete dragged (pipeline st)))
                     (Some index))
        | None => JS.Throws
        end
  end.

Definition handleDragEnd (st : State) : State := mkState (pipeline st) None.

End FlowSetupDrag.

(** ** The [ArtDirection] component: style and the expanded steps *)

Module StyleConfig.
Record t := mk {
  global_prompt_prefix : string;
  global_prompt_suffix : string;
  negative_prompt : string;
  aspect_ratio : string;
  image_size : string
}.

(** [Partial<StyleConfig>] *)
Record partial := mk_partial {
  p_global_prompt_prefix : option string;
  p_global_prompt_suffix : option string;
  p_negative_prompt : option string;
  p_aspect_ratio : option string;
  p_image_size : option string
}.

(** [{ ...prev, ...u }] *)
Definition spread (prev : t) (u : partial) : t :=
  mk (default (global_prompt_prefix prev) (p_global_prompt_prefix u))
     (default (global_prompt_suffix prev) (p_global_prompt_suffix u))
     (default (negative_prompt prev) (p_negative_prompt u))
     (default (aspect_ratio prev) (p_aspect_ratio u))
     (default (image_size prev) (p_image_size u)).
End StyleConfig.

Module ArtDirectionStyle.

Definition DEFAULT_STYLE : StyleConfig.t :=
  StyleConfig.mk "" "" "" "1:1" "1K".

Definition preset_style (prefix : string) : StyleConfig.partial :=
  StyleConfig.mk_partial (Some prefix) (Some ""%string) None None None.

Definition STYLE_PRESETS : list (string * StyleConfig.partial) := [
  ("Fantasy Illustration",
   preset_style "Fantasy illustration style, rich colors, detailed textures, dramatic lighting, painterly quality.");
  ("Pixel Art",
   preset_style "Pixel art style, 32-bit, retro game aesthetic, clean pixel edges.");
  ("Magic Card Art",
   preset_style "Magic the Gathering card art style, epic fantasy, dynamic composition, professional illustration.");
  ("Anime Style",
   preset_style "Anime style illustration, vibrant colors, clean lines, expressive characters.");
  ("Photorealistic",
   preset_style "Photorealistic, high detail, professional photography, studio lighting.")
]%string.

(** [applyPreset] *)
Definition applyPreset (preset : string * StyleConfig.partial)
    (prev : StyleConfig.t) : StyleConfig.t :=
  StyleConfig.spread prev (snd preset).

(** [toggleStep]: the updater of [expandedSteps]. *)
Definition toggleStep (stepId : string) (prev : gset string) : gset string :=
  if bool_decide (stepId ∈ prev) then prev ∖ {[stepId]} else prev ∪ {[stepId]}.

(** [imageSteps] *)
Definition imageSteps (updatedPipeline : list PipelineStep.t) : list PipelineStep.t :=
  filter (fun s => PipelineStep.type s ∈ ["generate_image"; "generate_sprite"]%string)
         updatedPipeline.

(** The steps the Per-Step Configuration block lists: all of them, but
    only when some step makes images. *)
Definition perStepConfiguration (updatedPipeline : list PipelineStep.t)
    : list PipelineStep.t :=
  if (0 <? Z.of_nat (length (imageSteps updatedPipeline)))
  then updatedPipeline else [].

End ArtDirectionStyle.

(** ** [pages/ContentInput.tsx]: the [ContentInput] component *)

Module ContentInput.

Record ParsedItem := mkItem {
  id : string;
  description : string;
  metadata : option (gmap string JS.Json)
}.

Inductive InputFormat := text | csv | tsv | json | jsonl.


Definition newline : ascii := ascii_of_nat 10.
Definition tab : ascii := ascii_of_nat 9.

(** [text.split("\n").filter((l) => l.trim())] *)
Definition nonBlankLines (content : string) : list string :=
  filter (fun l => JS.truthy_string (JS.trim l) = true) (JS.split newline content).


(** One step of [headers.forEach] on a row of the [csv]/[tsv] case. *)
Definition applyHeader (values : list string) (item : ParsedItem)
    (jh : nat * string) : ParsedItem :=
  let '(j, h) := jh in
  let val :=
    match values !! j with
    | Some v => if JS.truthy_string (JS.trim v) then JS.trim v else ""%string
    | None => ""%string
    end in
  if String.eqb h "id"
  then mkItem (if JS.truthy_string val then val else id item)
              (description item) (metadata item)
  else if String.eqb h "description" || String.eqb h "desc" || String.eqb h "name"
  then mkItem (id item) val (metadata item)
  else mkItem (id item) (description item)
              (Some (<[h := JS.JStr val]> (default ∅ (metadata item)))).

(** The item a row makes; [i] is the index of its line, from 1. *)
Definition parseRow (sep : ascii) (headers : list string) (i : nat)
    (line : string) : ParsedItem :=
  foldl (applyHeader (JS.split sep line))
        (mkItem ("item_" +:+ pretty i) "" None)
        (imap (fun j h => (j, h)) headers).

(** The [csv] and [tsv] cases of [parseContent]. *)
Definition parseDelimited (sep : ascii) (content : string) : list ParsedItem :=
  match nonBlankLines content with
  | [] => []
  | header :: rows =>
      let headers :=
        (fun h => JS.toLowerCase (JS.trim h)) <$> JS.split sep header in
      filter (fun item => JS.truthy_string (description item) = true)
             (imap (fun i line => parseRow sep headers (S i) line) rows)
  end.

Section WithJson.

(** [JSON.parse] is the browser's: the [json] and [jsonl] cases are taken
    as given, as the items they push or the text of what they throw. *)
Variable parseJson : InputFormat -> string -> string + list ParsedItem.


(** The format [handleContentChange] detects from the trimmed text. *)
Definition detectFormat (content : string) : InputFormat :=
  let trimmed := JS.trim content in
  if JS.startsWith trimmed "[" || JS.startsWith trimmed "{" then
    if JS.includes trimmed (String newline "") && negb (JS.startsWith trimmed "[")
    then jsonl else json
  else if JS.includes trimmed (String tab "") then tsv
  else if JS.includes trimmed ","
          && match JS.split newline trimmed !! 0%nat with
             | Some first => JS.includes first ","
             | None => false
             end
  then csv
  else text.

Record State := mkState {
  content : string;
  format : InputFormat;
  parsedItems : list ParsedItem;
  error : option string;
  isDragging : bool;
  loading : bool
}.

Definition initial : State := mkState "" text [] None false false.


End WithJson.

Inductive Effect :=
| uploadInput (content : string) (format : InputFormat) (autoStart : bool)
| onNext (items : list ParsedItem).



(** The preview table: the first ten items, and how many more there are. *)
Definition preview (st : State) : list ParsedItem * option Z :=
  (take 10 (parsedItems st),
   if Z.of_nat (length (parsedItems st)) >? 10
   then Some (Z.of_nat (length (parsedItems st)) - 10) else None).

End ContentInput.

(** ** [pages/ContentInput.tsx]: the thumbnail of [AssetList] *)

Module AssetList.
Import ApprovalQueue.

Definition is_completed (s : AssetStatus) : bool :=
  match s with
  | completed => true
  | _ => false
  end.

(** The loop over [Object.values(asset.results)], given those values in
    their order: the first completed result whose chosen variation is an
    image or a sprite with a path gives the thumbnail.  Reading [type] of a
    variation that is not there throws. *)
Fixpoint thumbnailUrl (API_BASE : string) (values : list StepResult)
    : JS.Result (option string) :=
  match values with
  | [] => JS.Ok None
  | result :: rest =>
      if is_completed (result_status result)
         && (0 <? Z.of_nat (length (variations result)))
      then
        let selectedIdx := JS.nullish (selected_index result) 0 in
        match JS.index (variations result) selectedIdx with
        | None => JS.Throws
        | Some artifact =>
            if (String.eqb (type artifact) "image"
                || String.eqb (type artifact) "sprite")
               && JS.truthy (path artifact)
            then JS.Ok (Client.getFileUrl API_BASE <$> path artifact)
            else thumbnailUrl API_BASE rest
        end
      else thumbnailUrl API_BASE rest
  end.

End AssetList.

(** ** [hooks/useWebSocket]: what a message from the server triggers *)

Module UseWebSocket.

(** A message after [JSON.parse]; every field but [type] is optional. *)
Record WSMessage := mkMessage {
  type : string;
  timestamp : option string;
  status : option QueueStatus.t;
  item : option ApprovalItem.t;
  asset_id : option string;
  step_id : option string;
  progress : option Z;
  error : option string
}.

(** The callbacks of [UseWebSocketOptions]. *)
Inductive Callback :=
| onStatusUpdate (status : QueueStatus.t)
| onNewApproval (item : ApprovalItem.t)
| onProgress (assetId stepId : string) (progress : Z)
| onComplete (assetId stepId : string)
| onError (assetId stepId error : string).

(** The [switch] of [ws.onmessage]: the callback it calls, if any. *)
Definition onmessage (message : WSMessage) : list Callback :=
  let ty := type message in
  if String.eqb ty "connected" || String.eqb ty "queue_update" then
    match status message with
    | Some s => [onStatusUpdate s]
    | None => []
    end
  else if String.eqb ty "new_approval" then
    match item message with
    | Some i => [onNewApproval i]
    | None => []
    end
  else if String.eqb ty "generation_progress" then
    match asset_id message, step_id message, progress message with
    | Some a, Some s, Some p =>
        if JS.truthy_string a && JS.truthy_string s then [onProgress a s p] else []
    | _, _, _ => []
    end
  else if String.eqb ty "generation_complete" then
    match asset_id message, step_id message with
    | Some a, Some s =>
        if JS.truthy_string a && JS.truthy_string s then [onComplete a s] else []
    | _, _ => []
    end
  else if String.eqb ty "generation_error" then
    match asset_id message, step_id message, error message with
    | Some a, Some s, Some e =>
        if JS.truthy_string a && JS.truthy_string s && JS.truthy_string e
        then [onError a s e] else []
    | _, _, _ => []
    end
  else [].

(** [lastStatus] of the hook after a message. *)
Definition lastStatusAfter (message : WSMessage)
    (lastStatus : option QueueStatus.t) : option QueueStatus.t :=
  match onmessage message with
  | [onStatusUpdate s] => Some s
  | _ => lastStatus
  end.

(** What the callbacks are in [InteractiveQueue]: a status update stores
    the status, a new approval starts [loadQueue], whose replies arrive as
    [replies], progress goes to [onProgress]; the component passes no
    [onComplete] and no [onError]. *)
Definition queueEvents (replies : option InteractiveQueue.QueueResponses)
    (message : WSMessage) : list InteractiveQueue.Event :=
  onmessage message ≫= fun cb =>
    match cb with
    | onStatusUpdate s => [InteractiveQueue.StatusUpdate s]
    | onNewApproval _ => [InteractiveQueue.QueueLoaded replies]
    | onProgress a s p => [InteractiveQueue.Progress a s p]
    | onComplete _ _ => []
    | onError _ _ _ => []
    end.

End UseWebSocket.

(** ** [App.tsx]: which screen is shown

    The fields that only hold fetched data ([project], [queue], [assets],
    [loading], [finInfo]) play no part in the navigation and are left out. *)

Module App.

Inductive Mode := classic | interactive.
Inductive InteractiveStep := content | flow | style | queue | results.
Inductive ClassicTab := tab_queue | tab_assets | tab_input.

Record State := mkState {
  connected : bool;
  mode : option Mode;
  interactiveStep : InteractiveStep;
  pipeline : list PipelineStep.t;
  currentStyle : option StyleConfig.t;
  activeTab : ClassicTab
}.

Definition initial : State := mkState false None content [] None tab_queue.

Inductive Screen :=
| Connecting
| Menu
| Wizard (step : InteractiveStep)
| Dashboard (tab : ClassicTab).

(** The [return] the component takes. *)
Definition screen (st : State) : Screen :=
  if negb (connected st) then Connecting
  else
    match mode st with
    | None => Menu
    | Some interactive => Wizard (interactiveStep st)
    | Some classic => Dashboard (activeTab st)
    end.

Definition setMode (v : option Mode) (st : State) : State :=
  mkState (connected st) v (interactiveStep st) (pipeline st) (currentStyle st)
          (activeTab st).

Definition setInteractiveStep (v : InteractiveStep) (st : State) : State :=
  mkState (connected st) (mode st) v (pipeline st) (currentStyle st) (activeTab st).

Definition setActiveTab (v : ClassicTab) (st : State) : State :=
  mkState (connected st) (mode st) (interactiveStep st) (pipeline st)
          (currentStyle st) v.

Definition setPipeline (v : list PipelineStep.t) (st : State) : State :=
  mkState (connected st) (mode st) (interactiveStep st) v (currentStyle st)
          (activeTab st).

Definition setStyle (v : option StyleConfig.t) (st : State) : State :=
  mkState (connected st) (mode st) (interactiveStep st) (pipeline st) v
          (activeTab st).

Definition setConnected (v : bool) (st : State) : State :=
  mkState v (mode st) (interactiveStep st) (pipeline st) (currentStyle st)
          (activeTab st).

(** What changes the state.  A click is possible only on the screen that
    draws its button.  A callback that a page calls after an [await]
    ([onNext] of the content and style pages, [onComplete] after Stop,
    [onUploadComplete]) and the continuation of an [await] of the component
    itself (the health check, the reply to [startInteractive]) run whatever
    is on screen by then. *)
Inductive Event :=
| HealthChecked (ok : bool)
| ChooseInteractive
| ChooseClassic
| BackToMenu
| ContentNext
| ContentSkip
| FlowNext (newPipeline : list PipelineStep.t)
| FlowBack
| StyleNext (newStyle : StyleConfig.t) (finalPipeline : list PipelineStep.t)
| StartSettled (started : bool)
| StyleBack
| QueueComplete
| ViewAllAssets
| SelectTab (tab : ClassicTab)
| UploadComplete.

Definition is_click (e : Event) : bool :=
  match e with
  | ChooseInteractive | ChooseClassic | BackToMenu | ContentSkip | FlowNext _
  | FlowBack | StyleBack | ViewAllAssets | SelectTab _ => true
  | HealthChecked _ | ContentNext | StyleNext _ _ | StartSettled _
  | QueueComplete | UploadComplete => false
  end.

(** [HealthChecked ok] is [setConnected(ok)] of [checkConnection];
    [StyleNext] is [handleStyleNext] up to its [await] and [StartSettled]
    what follows it. *)
Definition step (st : State) (e : Event) : State :=
  match e, screen st with
  | HealthChecked ok, _ => setConnected ok st
  | ChooseInteractive, Menu => setMode (Some interactive) st
  | ChooseClassic, Menu => setMode (Some classic) st
  | BackToMenu, Wizard s =>
      match s with
      | queue => st
      | _ => setMode None st
      end
  | BackToMenu, Dashboard _ => setMode None st
  | ContentNext, _ => setInteractiveStep flow st
  | ContentSkip, Wizard content => setInteractiveStep flow st
  | FlowNext p, Wizard flow => setInteractiveStep style (setPipeline p st)
  | FlowBack, Wizard flow => setInteractiveStep content st
  | StyleNext sty p, _ => setPipeline p (setStyle (Some sty) st)
  | StartSettled started, _ =>
      if started then setInteractiveStep queue st else st
  | StyleBack, Wizard style => setInteractiveStep flow st
  | QueueComplete, _ => setInteractiveStep results st
  | ViewAllAssets, Wizard results => setActiveTab tab_assets (setMode (Some classic) st)
  | SelectTab t, Dashboard _ => setActiveTab t st
  | UploadComplete, _ => setActiveTab tab_queue st
  | _, _ => st
  end.

Definition run (st : State) (events : list Event) : State := foldl step st events.

(** The step indicators of the wizard header: for each of the four steps
    listed, whether it shows as complete and whether as current. *)
Definition indicatorSteps : list InteractiveStep := [content; flow; style; queue].

Definition step_eqb (a b : InteractiveStep) : bool :=
  match a, b with
  | content, content | flow, flow | style, style | queue, queue
  | results, results => true
  | _, _ => false
  end.

Definition indicators (current : InteractiveStep) : list (bool * bool) :=
  let currentIdx := JS.findIndex (step_eqb current) indicatorSteps in
  imap (fun i s => (Z.of_nat i <? currentIdx, step_eqb s current)) indicatorSteps.

(** The header with the indicators is drawn on every wizard screen but
    the queue. *)
Definition showsHeader (st : State) : bool :=
  match screen st with
  | Wizard queue => false
  | Wizard _ => true
  | _ => false
  end.

End App.

(** ** Sample data for the worked instances *)

Module Sample.

Definition option_ (id : string) : GeneratedOption.t :=
  GeneratedOption.mk id image (Some ("outputs/" +:+ id +:+ ".png")) None None
    None None ∅ "2025-01-01T00:00:00Z".

(** A choose-one item with two candidates. *)
Definition portrait_item : ApprovalItem.t :=
  ApprovalItem.mk "item-a" "a" "Ice Wizard" "portrait" "Generate Image" 0 1
    choose_one [option_ "opt1"; option_ "opt2"] ∅ 1 3 "2025-01-01T00:00:01Z".

(** An accept/reject item on its second attempt. *)
Definition sprite_item : ApprovalItem.t :=
  ApprovalItem.mk "item-b" "b" "Fire Dragon" "sprite" "Generate Sprite" 0 1
    accept_reject [option_ "s1"] ∅ 2 3 "2025-01-01T00:00:02Z".

Definition reviewing (item : ApprovalItem.t) (selected : option string)
    : InteractiveQueue.State :=
  InteractiveQueue.mkState None (Some item) [] [] selected false None true.

Definition replies : InteractiveQueue.QueueResponses :=
  InteractiveQueue.mkResponses
    (QueueStatus.mk 2 0 0 2 0 0 true false)
    (Some portrait_item) [portrait_item; sprite_item] [].

(** The state after the first refresh and some more events. *)
Definition reviewing_after (events : list InteractiveQueue.Event)
    : InteractiveQueue.State :=
  fst (InteractiveQueue.run InteractiveQueue.initial
         (InteractiveQueue.QueueLoaded (Some replies) :: events)).

Definition all_done_status : QueueStatus.t :=
  QueueStatus.mk 2 1 1 0 0 0 false false.

Definition step_ (id type : string) (variations : Z) : PipelineStep.t :=
  PipelineStep.mk id type (Some "gemini"%string) (Some "{description}"%string)
    true variations None ∅.

Definition pipeline : list PipelineStep.t :=
  [step_ "name" "generate_name" 4; step_ "portrait" "generate_image" 1].

Definition queue_item : ApprovalQueue.QueueItem :=
  ApprovalQueue.mkQueueItem
    (ApprovalQueue.mkAsset "card-001" "Ice Wizard" ∅
       ApprovalQueue.awaiting_approval (Some "portrait"%string) ∅
       "2025-01-01T00:00:00Z" "2025-01-01T00:00:03Z")
    "portrait"
    (ApprovalQueue.mkStepResult "portrait" ApprovalQueue.awaiting_approval []
       None false None None None)
    None.

End Sample.

(** ** Predicates the properties are stated with *)

Module Props.
Import InteractiveQueue.

(** The ids of the options an item offers. *)
Definition option_ids (item : ApprovalItem.t) : list string :=
  GeneratedOption.id <$> ApprovalItem.options item.

(** The selection, when there is one, names an option of the current item. *)
Definition selection_valid (st : State) : Prop :=
  forall item id,
    currentItem st = Some item ->
    selectedOption st = Some id ->
    id ∈ option_ids item.

(** The states the component can be in: those some sequence of events
    leads to from the first render. *)
Definition reachable (st : State) : Prop :=
  exists events, fst (run initial events) = st.

(** The current item followed by the pending ones, as the sidebar lists them. *)
Definition displayed_queue (st : State) : list ApprovalItem.t :=
  option_list (currentItem st) ++ pendingItems st.

(** The counts of a status are numbers of assets and of items. *)
Definition counts_nonneg (s : QueueStatus.t) : Prop :=
  0 <= QueueStatus.total_assets s /\
  0 <= QueueStatus.completed_assets s /\
  0 <= QueueStatus.failed_assets s /\
  0 <= QueueStatus.awaiting_approval s /\
  0 <= QueueStatus.currently_generating s /\
  0 <= QueueStatus.pending s.

Definition is_all_done (v : EmptyView) : bool :=
  match v with
  | AllDone _ _ => true
  | _ => false
  end.

(** The decision the reject action sends for an item. *)
Definition rejection (item : ApprovalItem.t) : ApprovalDecision.t :=
  ApprovalDecision.mk (ApprovalItem.id item) false None (Some true).

(** The requests of an outcome; a handler that threw sent none. *)
Definition requests (o : Outcome) : list Request :=
  match o with
  | Done _ sent => sent
  | TypeError => []
  end.

(** What every run of the state machine keeps true: [generations] follows
    [attempt] while a step is being generated or reviewed, a rejected asset
    still has attempts left, and the count never passes the bound. *)
Definition attempts_bounded (maxAttempts : nat) (a : AssetStateMachine.Asset) : Prop :=
  match AssetStateMachine.state a with
  | AssetStateMachine.PENDING =>
      AssetStateMachine.attempt a = 1%nat /\
      AssetStateMachine.generations a = 0%nat
  | AssetStateMachine.GENERATING | AssetStateMachine.AWAITING_APPROVAL =>
      AssetStateMachine.generations a = AssetStateMachine.attempt a /\
      (AssetStateMachine.attempt a <= Nat.max 1 maxAttempts)%nat
  | AssetStateMachine.REJECTED =>
      AssetStateMachine.generations a = AssetStateMachine.attempt a /\
      (AssetStateMachine.attempt a < maxAttempts)%nat
  | _ => (AssetStateMachine.generations a <= Nat.max 1 maxAttempts)%nat
  end.

(** The requests that decide about an item, and the item they name. *)
Definition request_item_id (rq : Request) : option string :=
  match rq with
  | submitInteractiveApproval d => Some (ApprovalDecision.item_id d)
  | skipApproval itemId => Some itemId
  | regenerateItem itemId => Some itemId
  | _ => None
  end.

Definition item_requests (sent : list Request) : list Request :=
  filter (fun rq => is_Some (request_item_id rq)) sent.

(** A string with no white space at either end. *)
Definition trimmed (s : string) : Prop := JS.trim s = s.

(** A selected index, when there is one, points into the variations. *)
Definition selection_in_range (r : ApprovalQueue.StepResult) : Prop :=
  match ApprovalQueue.selected_index r with
  | Some i => 0 <= i < Z.of_nat (length (ApprovalQueue.variations r))
  | None => True
  end.

End Props.

(** ** Proof steps used throughout *)

(** Case analysis on whatever the handlers in a hypothesis branch on. *)
Ltac split_cases_in H :=
  repeat match type of H with
         | context [match ?x with _ => _ end] => destruct x eqn:?
         end.

(** A request found in an empty list, or in a list of one. *)
Ltac sole_request H :=
  first [ apply elem_of_nil in H; contradiction
        | apply list_elem_of_singleton in H; subst ].

(** ** Facts about the JavaScript primitives *)

Section JSFacts.

Lemma truthy_Some_inv (v : option string) :
  JS.truthy v = true -> exists s, v = Some s /\ s <> ""%string.
Proof.
  destruct v as [s|]; simpl; [|discriminate].
  unfold JS.truthy_string. intros H. exists s. split; [reflexivity|].
  intros ->. discriminate H.
Qed.

Lemma or_undefined_truthy (v : option string) :
  JS.truthy v = true -> JS.or_undefined v = v.
Proof. unfold JS.or_undefined. now intros ->. Qed.

Lemma or_number_nonzero (v : option Z) (d : Z) :
  d <> 0 -> JS.or_number v d <> 0.
Proof.
  intros Hd. destruct v as [n|]; simpl; [|exact Hd].
  destruct (n =? 0) eqn:E; [exact Hd | lia].
Qed.

Lemma digit_value_nonneg (c : ascii) (d : Z) :
  JS.digit_value c = Some d -> 0 <= d.
Proof.
  unfold JS.digit_value. intros H.
  repeat match type of H with
         | (if ?b then _ else _) = _ => destruct b eqn:?
         end; inversion H; lia.
Qed.

(** Once a digit has been read, more digits never lower the value. *)
Lemma parse_digits_from (radix : Z) (s : string) (a : Z) :
  0 <= a -> 0 < radix ->
  exists b, JS.parse_digits radix s (Some a) = Some b /\ a <= b.
Proof.
  intros Ha Hr. revert a Ha.
  induction s as [|c s IH]; intros a Ha; simpl.
  - exists a. split; [reflexivity | lia].
  - destruct (JS.digit_value c) as [d|] eqn:Hd.
    + destruct (d <? radix) eqn:Hlt.
      * pose proof (digit_value_nonneg _ _ Hd) as Hd0.
        destruct (IH (a * radix + d)) as [b [Hb Hle]]; [nia|].
        exists b. split; [exact Hb | nia].
      * exists a. split; [reflexivity | lia].
    + exists a. split; [reflexivity | lia].
Qed.

(** A key between ["1"] and ["9"] in string order starts with a digit from
    1 to 9, so [parseInt] reads a positive number from it. *)
Lemma number_key_parse (key : string) :
  JS.str_ge key "1" && JS.str_le key "9" = true ->
  exists n, JS.parseInt key = Some n /\ 1 <= n.
Proof.
  intros H. destruct key as [|c rest].
  - discriminate H.
  - destruct c as [[] [] [] [] [] [] [] []];
      try (exfalso; vm_compute in H; discriminate H).
    all: match goal with
         | |- exists n, JS.parseInt (String ?c ?r) = _ /\ _ =>
             let d := eval vm_compute in (JS.code c - 48) in
             destruct (parse_digits_from 10 r d) as [b [Hb Hle]]; [lia | lia |];
             exists b; split; [| lia];
             change (JS.parseInt (String c r))
               with ((fun n => 1 * n) <$> JS.parse_digits 10 r (Some d));
             rewrite Hb; cbn; f_equal; lia
         end.
Qed.

Lemma findIndex_range {A} (p : A -> bool) (xs : list A) :
  -1 <= JS.findIndex p xs < Z.of_nat (length xs).
Proof.
  induction xs as [|x xs IH]; simpl; [lia|].
  destruct (p x); [lia|].
  destruct (JS.findIndex p xs <? 0) eqn:E; lia.
Qed.

Lemma index_in_range {A} (xs : list A) (i : Z) :
  0 <= i < Z.of_nat (length xs) ->
  exists x, JS.index xs i = Some x /\ xs !! Z.to_nat i = Some x.
Proof.
  intros [H0 H1]. unfold JS.index.
  destruct (i <? 0) eqn:E; [lia|].
  destruct (lookup_lt_is_Some_2 xs (Z.to_nat i)) as [x Hx]; [lia|].
  exists x. now rewrite Hx.
Qed.

End JSFacts.

(** ** The interactive queue *)

Section InteractiveQueueFacts.
Import InteractiveQueue Props.

Lemma selection_valid_frame (st st' : State) :
  currentItem st' = currentItem st ->
  selectedOption st' = selectedOption st ->
  selection_valid st -> selection_valid st'.
Proof.
  unfold selection_valid. intros Hc Hs H item id.
  rewrite Hc, Hs. apply H.
Qed.

Lemma selection_valid_select (st : State) (item : ApprovalItem.t)
    (i : nat) (o : GeneratedOption.t) :
  currentItem st = Some item ->
  ApprovalItem.options item !! i = Some o ->
  selection_valid (setSelectedOption (Some (GeneratedOption.id o)) st).
Proof.
  intros Hc Ho item' id Hc' Hs. simpl in Hc', Hs.
  rewrite Hc in Hc'. injection Hc' as <-. injection Hs as <-.
  unfold option_ids. apply list_elem_of_fmap. exists o.
  split; [reflexivity|]. apply list_elem_of_lookup. eauto.
Qed.

Lemma selection_valid_none (st : State) :
  selection_valid (setSelectedOption None st).
Proof. intros item id _ Hs. discriminate Hs. Qed.

(** [navigateOption] never leaves the options of a non-empty list. *)
Lemma navigateIndex_range (options : list GeneratedOption.t)
    (selected : option string) (direction : Z) :
  options <> [] ->
  direction = -1 \/ direction = 1 ->
  0 <= navigateIndex options selected direction < Z.of_nat (length options).
Proof.
  intros Hne Hd.
  assert (0 < Z.of_nat (length options)) as Hlen
    by (destruct options; [congruence | simpl; lia]).
  unfold navigateIndex.
  set (cur := if JS.truthy selected then _ else -1).
  assert (-1 <= cur < Z.of_nat (length options)) as Hcur.
  { subst cur. destruct (JS.truthy selected); [apply findIndex_range | lia]. }
  clearbody cur.
  destruct (Z.ltb_spec (cur + direction) 0);
    repeat match goal with
           | |- context [?a >=? ?b] => destruct (Z.geb_spec a b)
           end; lia.
Qed.

(** What the navigation computes: one step from the selected option, and
    round the end in either direction; with nothing selected, the first
    option going right and the last going left. *)
Lemma navigateIndex_wraps (options : list GeneratedOption.t)
    (selected : option string) (direction : Z) :
  options <> [] ->
  direction = -1 \/ direction = 1 ->
  let cur :=
    if JS.truthy selected
    then JS.findIndex
           (fun o => bool_decide (Some (GeneratedOption.id o) = selected)) options
    else -1 in
  navigateIndex options selected direction =
    if cur =? -1 then (if direction =? 1 then 0 else Z.of_nat (length options) - 1)
    else (cur + direction) mod Z.of_nat (length options).
Proof.
  intros Hne Hd cur.
  assert (0 < Z.of_nat (length options)) as Hlen
    by (destruct options; [congruence | simpl; lia]).
  assert (-1 <= cur < Z.of_nat (length options)) as Hcur.
  { subst cur. destruct (JS.truthy selected); [apply findIndex_range | lia]. }
  unfold navigateIndex. fold cur. clearbody cur.
  set (len := Z.of_nat (length options)) in *. clearbody len.
  destruct (Z.eqb_spec cur (-1)) as [->|Hc].
  - destruct (Z.ltb_spec (-1 + direction) 0);
      destruct (Z.eqb_spec direction 1); cbv beta iota;
      repeat match goal with
             | |- context [?a >=? ?b] => destruct (Z.geb_spec a b); cbv beta iota
             end; lia.
  - destruct (Z.ltb_spec (cur + direction) 0) as [Hneg | Hpos].
    + assert (cur = 0 /\ direction = -1) as [-> ->] by lia.
      destruct (Z.geb_spec (len - 1) len); [lia|]. cbv beta iota.
      apply (Z.mod_unique_pos _ _ (-1)); lia.
    + destruct (Z.geb_spec (cur + direction) len) as [Hge | Hlt].
      * apply (Z.mod_unique_pos _ _ 1); lia.
      * apply (Z.mod_unique_pos _ _ 0); lia.
Qed.

Lemma navigateOption_selects (st : State) (item : ApprovalItem.t) (direction : Z) :
  currentItem st = Some item ->
  ApprovalItem.options item <> [] ->
  direction = -1 \/ direction = 1 ->
  exists o,
    ApprovalItem.options item
      !! Z.to_nat (navigateIndex (ApprovalItem.options item) (selectedOption st) direction)
      = Some o /\
    navigateOption direction st
      = Done (setSelectedOption (Some (GeneratedOption.id o)) st) [].
Proof.
  intros Hc Hne Hd. unfold navigateOption. rewrite Hc.
  destruct (Z.eqb_spec (Z.of_nat (length (ApprovalItem.options item))) 0) as [E|_].
  { destruct (ApprovalItem.options item); [congruence | simpl in E; lia]. }
  destruct (index_in_range (ApprovalItem.options item)
              (navigateIndex (ApprovalItem.options item) (selectedOption st) direction))
    as [o [Hi Hl]]; [now apply navigateIndex_range|].
  exists o. now rewrite Hi.
Qed.

(** With no option to move to, the arrows do nothing. *)
Lemma navigateOption_total (st : State) (direction : Z) :
  direction = -1 \/ direction = 1 ->
  selection_valid st ->
  exists st', navigateOption direction st = Done st' [] /\ selection_valid st'.
Proof.
  intros Hd Hv. destruct (currentItem st) as [item|] eqn:Hc.
  - destruct (ApprovalItem.options item) as [|o0 rest] eqn:Ho.
    + exists st. unfold navigateOption. now rewrite Hc, Ho.
    + destruct (navigateOption_selects st item direction Hc) as [o [Hl ->]];
        [congruence | exact Hd |].
      eexists. split; [reflexivity|]. eapply selection_valid_select; eauto.
  - exists st. unfold navigateOption. now rewrite Hc.
Qed.

(** A key in the number range selects the option it names, if there is one. *)
Lemma number_key_selects (st : State) (item : ApprovalItem.t) (key : string) :
  currentItem st = Some item ->
  loading st = false ->
  JS.str_ge key "1" && JS.str_le key "9" = true ->
  exists n, JS.parseInt key = Some n /\ 1 <= n /\
    handleKeyDown st key =
      match ApprovalItem.options item !! Z.to_nat (n - 1) with
      | Some o => Done (setSelectedOption (Some (GeneratedOption.id o)) st) []
      | None => Done st []
      end.
Proof.
  intros Hc Hl Hk. destruct (number_key_parse key Hk) as [n [Hp Hn]].
  exists n. split; [exact Hp|]. split; [exact Hn|].
  unfold handleKeyDown. rewrite Hc, Hl, Hk, Hp.
  destruct (Z.ltb_spec (n - 1) (Z.of_nat (length (ApprovalItem.options item))))
    as [Hlt | Hge].
  - destruct (index_in_range (ApprovalItem.options item) (n - 1)) as [o [Hi Ho]];
      [lia|].
    now rewrite Hi, Ho.
  - rewrite lookup_ge_None_2; [reflexivity | lia].
Qed.


(** The four request handlers touch [loading] only. *)
Lemma handler_frame (h : State -> Outcome) (st : State) :
  h = handleApprove \/ h = handleReject \/ h = handleRegenerate \/ h = handleSkip ->
  exists st' sent,
    h st = Done st' sent /\
    currentItem st' = currentItem st /\
    selectedOption st' = selectedOption st.
Proof.
  intros [-> | [-> | [-> | ->]]];
    unfold handleApprove, handleReject, handleRegenerate, handleSkip;
    destruct (currentItem st) eqn:Hc; eauto.
Qed.

Lemma handleKeyDown_total (st : State) (key : string) :
  selection_valid st ->
  exists st' sent, handleKeyDown st key = Done st' sent /\ selection_valid st'.
Proof.
  intros Hv.
  destruct (currentItem st) as [item|] eqn:Hc;
    [| exists st, []; unfold handleKeyDown; now rewrite Hc].
  destruct (loading st) eqn:Hl;
    [exists st, []; unfold handleKeyDown; now rewrite Hc, Hl |].
  destruct (JS.str_ge key "1" && JS.str_le key "9") eqn:Hk.
  - destruct (number_key_selects st item key Hc Hl Hk) as [n [_ [_ ->]]].
    destruct (ApprovalItem.options item !! Z.to_nat (n - 1)) as [o|] eqn:Ho.
    + do 2 eexists. split; [reflexivity|]. eapply selection_valid_select; eauto.
    + eauto.
  - unfold handleKeyDown. rewrite Hc, Hl, Hk.
    assert (forall h,
      h = handleApprove \/ h = handleReject \/ h = handleRegenerate \/ h = handleSkip ->
      exists st' sent, h st = Done st' sent /\ selection_valid st') as Hh.
    { intros h Hh. destruct (handler_frame h st Hh) as [st' [sent [-> [H1 H2]]]].
      do 2 eexists. split; [reflexivity|]. now apply (selection_valid_frame st). }
    assert (forall d, d = -1 \/ d = 1 ->
      exists st' sent, navigateOption d st = Done st' sent /\ selection_valid st') as Hn.
    { intros d Hd. destruct (navigateOption_total st d Hd Hv) as [st' [-> Hv']]. eauto. }
    repeat match goal with
           | |- context [if ?b then _ else _] => destruct b
           end; eauto 10.
Qed.

(** No event makes a handler throw, and every event keeps the selection
    among the options of the item on screen. *)
Lemma step_total_valid (st : State) (e : Event) :
  selection_valid st ->
  exists st' sent, step st e = Done st' sent /\ selection_valid st'.
Proof.
  intros Hv. destruct e as [key | b | i | | | url | | replies | | s | a s p]; simpl.
  - now apply handleKeyDown_total.
  - unfold click. destruct (rendered st b && negb (disabled st b)); [|eauto].
    destruct (handler_frame (onClick b) st) as [st' [sent [-> [H1 H2]]]].
    { destruct b; simpl; auto. }
    do 2 eexists. split; [reflexivity|]. now apply (selection_valid_frame st).
  - unfold clickOption. destruct (currentItem st) as [item|] eqn:Hc; [|eauto].
    destruct (ApprovalItem.options item !! i) as [o|] eqn:Ho; [|eauto].
    do 2 eexists. split; [reflexivity|]. eapply selection_valid_select; eauto.
  - unfold handlePauseResume.
    destruct (status st) as [s|]; [destruct (QueueStatus.is_paused s)|]; eauto.
  - unfold handleStop. eauto.
  - do 2 eexists. split; [reflexivity|]. now apply (selection_valid_frame st).
  - do 2 eexists. split; [reflexivity|]. now apply (selection_valid_frame st).
  - do 2 eexists. split; [reflexivity|].
    destruct replies as [r|]; [|exact Hv]. unfold loadQueue.
    destruct (nextRes r) as [item|] eqn:Hn.
    + destruct (is_choose_one item
                && (0 <? Z.of_nat (length (ApprovalItem.options item)))) eqn:Hcond.
      * apply andb_true_iff in Hcond as [_ Hlen]. apply Z.ltb_lt in Hlen.
        destruct (index_in_range (ApprovalItem.options item) 0) as [o [Hi Ho]];
          [lia|].
        rewrite Hi.
        apply (selection_valid_select _ item 0%nat); [reflexivity | exact Ho].
      * apply selection_valid_none.
    + intros item' id Hc' _. discriminate Hc'.
  - do 2 eexists. split; [reflexivity|]. now apply (selection_valid_frame st).
  - do 2 eexists. split; [reflexivity|]. now apply (selection_valid_frame st).
  - do 2 eexists. split; [reflexivity|]. now apply (selection_valid_frame st).
Qed.

Lemma run_selection_valid (events : list Event) :
  forall st, selection_valid st -> selection_valid (fst (run st events)).
Proof.
  induction events as [|e events IH]; intros st Hv; simpl; [exact Hv|].
  destruct (step_total_valid st e Hv) as [st' [sent [-> Hv']]].
  specialize (IH st' Hv'). now destruct (run st' events).
Qed.

Lemma reachable_selection_valid (st : State) :
  reachable st -> selection_valid st.
Proof.
  intros [events <-]. apply run_selection_valid.
  intros item id Hc. discriminate Hc.
Qed.

(** Every request an event can send about the current item. *)
Lemma step_requests_cases (st : State) (item : ApprovalItem.t)
    (e : Event) (rq : Request) :
  currentItem st = Some item ->
  rq ∈ requests (step st e) ->
  (rq = submitInteractiveApproval
          (ApprovalDecision.mk (ApprovalItem.id item) true
             (JS.or_undefined (selectedOption st)) None) /\
   loading st = false /\
   (JS.truthy (selectedOption st) = true \/ is_accept_reject item = true))
  \/ (rq = submitInteractiveApproval (rejection item) /\ loading st = false)
  \/ rq = regenerateItem (ApprovalItem.id item)
  \/ rq = skipApproval (ApprovalItem.id item)
  \/ rq = pauseInteractive \/ rq = resumeInteractive \/ rq = stopInteractive.
Proof.
  intros Hc Hin.
  destruct e as [key | b | i | | | url | | replies | | s | a s p]; simpl in Hin;
    try (apply elem_of_nil in Hin; contradiction).
  - unfold handleKeyDown in Hin. rewrite Hc in Hin.
    destruct (loading st) eqn:Hl; [apply elem_of_nil in Hin; contradiction|].
    destruct (JS.str_ge key "1" && JS.str_le key "9").
    { split_cases_in Hin; sole_request Hin. }
    unfold handleApprove, handleReject, handleRegenerate, handleSkip,
      navigateOption in Hin.
    rewrite Hc in Hin.
    destruct (JS.truthy (selectedOption st)) eqn:Ht;
      destruct (is_accept_reject item) eqn:Ha;
      cbn [orb] in Hin;
      repeat match type of Hin with
             | context [if ?b then _ else _] => destruct b
             | context [match ?x with _ => _ end] => destruct x
             end;
      simpl in Hin;
      sole_request Hin; auto 10.
  - unfold click, rendered, disabled in Hin. rewrite Hc in Hin.
    destruct b; simpl in Hin;
      unfold handleApprove, handleReject, handleRegenerate, handleSkip in Hin;
      rewrite Hc in Hin;
      destruct (is_choose_one item) eqn:Hco;
      destruct (JS.truthy (selectedOption st)) eqn:Ht;
      destruct (loading st) eqn:Hl; simpl in Hin;
      sole_request Hin; auto 10.
    all: left; repeat split; auto; right;
      unfold is_accept_reject; unfold is_choose_one in Hco;
      destruct (ApprovalItem.approval_type item); congruence.
  - unfold clickOption in Hin. rewrite Hc in Hin.
    split_cases_in Hin; sole_request Hin.
  - unfold handlePauseResume in Hin.
    split_cases_in Hin; sole_request Hin; auto 10.
  - sole_request Hin. auto 10.
Qed.


(** A key whose lower-case form starts with a letter is not a number key. *)
Lemma letter_key_not_number (key : string) (c : ascii) (rest : string) :
  JS.toLowerCase key = String c rest ->
  (97 <=? JS.code c) && (JS.code c <=? 122) = true ->
  JS.str_ge key "1" && JS.str_le key "9" = false.
Proof.
  destruct key as [|k krest]; simpl; [discriminate|].
  intros Hk Hc. injection Hk as <- _.
  destruct k as [[] [] [] [] [] [] [] []];
    first [ exfalso; vm_compute in Hc; discriminate Hc
          | vm_compute; reflexivity ].
Qed.

(** C4: the reject action of the interactive queue submits, for the id of
    the item on screen, a decision with [approved = false] and
    [regenerate = true]; the Reject button and the N key both run it, and
    no event sends any other decision with [approved = false]. *)
Theorem reject_requests_regeneration (st : State) (item : ApprovalItem.t) :
  currentItem st = Some item ->
  handleReject st
    = Done (setLoading true st) [submitInteractiveApproval (rejection item)]
  /\ ApprovalDecision.item_id (rejection item) = ApprovalItem.id item
  /\ ApprovalDecision.approved (rejection item) = false
  /\ ApprovalDecision.regenerate (rejection item) = Some true
  /\ (rendered st BtnReject = true -> loading st = false ->
      click st BtnReject = handleReject st)
  /\ (loading st = false ->
      forall key, JS.toLowerCase key = "n"%string ->
        handleKeyDown st key = handleReject st)
  /\ (forall e d,
        submitInteractiveApproval d ∈ requests (step st e) ->
        ApprovalDecision.approved d = false ->
        d = rejection item).
Proof.
  intros Hc. repeat split.
  - unfold handleReject. now rewrite Hc.
  - intros Hr Hl. unfold click, disabled. now rewrite Hr, Hl.
  - intros Hl key Hk. unfold handleKeyDown. rewrite Hc, Hl.
    rewrite (letter_key_not_number key "n" "" Hk eq_refl).
    now rewrite Hk.
  - intros e d Hin Hd.
    destruct (step_requests_cases st item e _ Hc Hin)
      as [[E _] | [[E _] | [E | [E | [E | [E | E]]]]]];
      try discriminate E.
    + injection E as ->. discriminate Hd.
    + now injection E.
Qed.

Lemma reject_requests_regeneration_witness :
  handleReject (Sample.reviewing Sample.sprite_item None)
    = Done (setLoading true (Sample.reviewing Sample.sprite_item None))
        [submitInteractiveApproval
           (ApprovalDecision.mk "item-b" false None (Some true))].
Proof.
  exact (proj1 (reject_requests_regeneration
                  (Sample.reviewing Sample.sprite_item None)
                  Sample.sprite_item eq_refl)).
Defined.

(** C5: a refresh shows as current the item [getNext()] returned and as
    pending the list of all approvals without its first element; the item
    on screen followed by the pending ones is the whole list exactly when
    [getNext()] returned the head of that list. *)
Theorem refresh_shows_next_and_rest (st : State) (r : QueueResponses) :
  currentItem (loadQueue st (Some r)) = nextRes r
  /\ pendingItems (loadQueue st (Some r)) = drop 1 (allRes r)
  /\ (displayed_queue (loadQueue st (Some r)) = allRes r
      <-> head (allRes r) = nextRes r).
Proof.
  assert (currentItem (loadQueue st (Some r)) = nextRes r
          /\ pendingItems (loadQueue st (Some r)) = drop 1 (allRes r))
    as [Hcur Hpend].
  { unfold loadQueue. destruct (nextRes r) as [item|]; [|now split].
    destruct (is_choose_one item && _); [|now split].
    destruct (JS.index _ 0); now split. }
  split; [exact Hcur|]. split; [exact Hpend|].
  unfold displayed_queue. rewrite Hcur, Hpend.
  destruct (nextRes r) as [item|], (allRes r) as [|x rest]; simpl;
    rewrite ?drop_0; split; intros H; try discriminate H; try reflexivity.
  - injection H as ->. reflexivity.
  - injection H as ->. reflexivity.
  - exfalso. apply (f_equal length) in H. simpl in H. lia.
Qed.

(** C9: after a refresh that yields an item, the first option is selected
    when the item is a choose-one item with at least one option, and
    nothing is selected otherwise; so a choose-one item that has options is
    on screen with its first option selected. *)
Theorem refresh_preselects_first_option (st : State) (r : QueueResponses)
    (item : ApprovalItem.t) :
  nextRes r = Some item ->
  (forall o rest,
     ApprovalItem.approval_type item = choose_one ->
     ApprovalItem.options item = o :: rest ->
     selectedOption (loadQueue st (Some r)) = Some (GeneratedOption.id o)
     /\ mainArea (loadQueue st (Some r))
        = Review item (Some (GeneratedOption.id o)))
  /\ (ApprovalItem.approval_type item <> choose_one
      \/ ApprovalItem.options item = [] ->
      selectedOption (loadQueue st (Some r)) = None
      /\ mainArea (loadQueue st (Some r)) = Review item None).
Proof.
  intros Hn. unfold mainArea, loadQueue, is_choose_one. rewrite Hn. split.
  - intros o rest Ht Ho. rewrite Ht, Ho. simpl. now split.
  - intros [Ht | Ho].
    + destruct (ApprovalItem.approval_type item); [congruence|]. simpl. now split.
    + rewrite Ho. simpl. rewrite andb_false_r. now split.
Qed.

Lemma refresh_preselects_first_option_witness :
  selectedOption (loadQueue initial (Some Sample.replies)) = Some "opt1"%string
  /\ mainArea (loadQueue initial (Some Sample.replies))
     = Review Sample.portrait_item (Some "opt1"%string).
Proof.
  exact (proj1 (refresh_preselects_first_option initial Sample.replies
                  Sample.portrait_item eq_refl)
           (Sample.option_ "opt1") [Sample.option_ "opt2"] eq_refl eq_refl).
Defined.


(** C2: for a choose-one item the queue never submits an approval without
    a selected option.  The Select button is the approve button drawn for
    it and is disabled while nothing is selected; Y and Enter do nothing
    while nothing is selected; and every decision with [approved = true]
    that any event submits carries the selected option's id (and the id of
    the item on screen). *)
Theorem choose_one_approval_carries_selection (st : State) (item : ApprovalItem.t) :
  currentItem st = Some item ->
  ApprovalItem.approval_type item = choose_one ->
  (rendered st BtnSelect = true /\ rendered st BtnAccept = false)
  /\ (JS.truthy (selectedOption st) = false ->
      disabled st BtnSelect = true /\ click st BtnSelect = Done st [])
  /\ (forall key,
        JS.toLowerCase key = "y"%string \/ JS.toLowerCase key = "enter"%string ->
        JS.truthy (selectedOption st) = false ->
        handleKeyDown st key = Done st [])
  /\ (forall e d,
        submitInteractiveApproval d ∈ requests (step st e) ->
        ApprovalDecision.approved d = true ->
        exists id,
          selectedOption st = Some id /\ id <> ""%string /\
          ApprovalDecision.selected_option_id d = Some id /\
          ApprovalDecision.item_id d = ApprovalItem.id item).
Proof.
  intros Hc Ht.
  assert (is_choose_one item = true) as Hco by (unfold is_choose_one; now rewrite Ht).
  assert (is_accept_reject item = false) as Har
    by (unfold is_accept_reject; now rewrite Ht).
  split; [|split; [|split]].
  - unfold rendered. rewrite Hc, Hco. now split.
  - intros Hs. unfold click, disabled. rewrite Hs. simpl.
    rewrite andb_false_r. now split.
  - intros key Hk Hs. unfold handleKeyDown. rewrite Hc.
    destruct (loading st); [reflexivity|].
    destruct Hk as [Hk | Hk].
    + rewrite (letter_key_not_number key "y" "" Hk eq_refl).
      now rewrite Hk, Hs, Har.
    + rewrite (letter_key_not_number key "e" "nter" Hk eq_refl).
      now rewrite Hk, Hs, Har.
  - intros e d Hin Hd.
    destruct (step_requests_cases st item e _ Hc Hin)
      as [[E [_ Hsel]] | [[E _] | [E | [E | [E | [E | E]]]]]];
      try discriminate E.
    + injection E as ->. destruct Hsel as [Hsel | Hsel]; [|congruence].
      destruct (truthy_Some_inv _ Hsel) as [id [Hid Hne]].
      exists id. simpl. rewrite (or_undefined_truthy _ Hsel). auto.
    + injection E as ->. discriminate Hd.
Qed.

Lemma choose_one_approval_carries_selection_witness :
  exists id,
    selectedOption (Sample.reviewing Sample.portrait_item (Some "opt2"%string))
      = Some id /\ id <> ""%string /\
    ApprovalDecision.selected_option_id
      (ApprovalDecision.mk "item-a" true (Some "opt2"%string) None) = Some id /\
    ApprovalDecision.item_id
      (ApprovalDecision.mk "item-a" true (Some "opt2"%string) None)
      = ApprovalItem.id Sample.portrait_item.
Proof.
  apply (proj2 (proj2 (proj2
           (choose_one_approval_carries_selection
              (Sample.reviewing Sample.portrait_item (Some "opt2"%string))
              Sample.portrait_item eq_refl eq_refl)))
           (KeyDown "Enter")).
  - apply list_elem_of_here.
  - reflexivity.
Defined.

(** C3: in every state the component can reach, the selection, if there
    is one, is the id of an option of the item on screen, and while an
    item with options is on screen every change of the selection lands on
    one of its options.  A key in the range of the number keys reads as a
    number [n >= 1] and selects option [n - 1] when there is one, and
    changes nothing otherwise; the arrow keys compute an index within the
    options, one step from the selected one and round the end in both
    directions; and no event at all throws or leaves a selection that is
    not the id of an option of the item then on screen. *)
Theorem selection_refers_to_an_option (st : State) (item : ApprovalItem.t) :
  reachable st ->
  currentItem st = Some item ->
  ApprovalItem.options item <> [] ->
  (forall id, selectedOption st = Some id -> id ∈ option_ids item)
  /\ (forall key,
        loading st = false ->
        JS.str_ge key "1" && JS.str_le key "9" = true ->
        exists n, JS.parseInt key = Some n /\ 1 <= n /\
          handleKeyDown st key =
            match ApprovalItem.options item !! Z.to_nat (n - 1) with
            | Some o => Done (setSelectedOption (Some (GeneratedOption.id o)) st) []
            | None => Done st []
            end)
  /\ (forall direction,
        direction = -1 \/ direction = 1 ->
        0 <= navigateIndex (ApprovalItem.options item) (selectedOption st) direction
          < Z.of_nat (length (ApprovalItem.options item))
        /\ navigateIndex (ApprovalItem.options item) (selectedOption st) direction
           = (let cur :=
                if JS.truthy (selectedOption st)
                then JS.findIndex
                       (fun o => bool_decide
                                   (Some (GeneratedOption.id o) = selectedOption st))
                       (ApprovalItem.options item)
                else -1 in
              if cur =? -1
              then (if direction =? 1 then 0
                    else Z.of_nat (length (ApprovalItem.options item)) - 1)
              else (cur + direction) mod Z.of_nat (length (ApprovalItem.options item)))
        /\ exists o,
             ApprovalItem.options item
               !! Z.to_nat (navigateIndex (ApprovalItem.options item)
                              (selectedOption st) direction) = Some o
             /\ navigateOption direction st
                = Done (setSelectedOption (Some (GeneratedOption.id o)) st) [])
  /\ (forall e,
        exists st' sent, step st e = Done st' sent /\ selection_valid st').
Proof.
  intros Hr Hc Hne.
  pose proof (reachable_selection_valid st Hr) as Hv.
  split; [|split; [|split]].
  - intros id Hs. now apply (Hv item id).
  - intros key Hl Hk. now apply number_key_selects.
  - intros direction Hd. split; [now apply navigateIndex_range|].
    split; [now apply navigateIndex_wraps|].
    now apply navigateOption_selects.
  - intros e. now apply step_total_valid.
Qed.

Lemma selection_refers_to_an_option_witness :
  selectedOption (Sample.reviewing_after [KeyDown "2"]) = Some "opt2"%string
  /\ "opt2"%string ∈ option_ids Sample.portrait_item.
Proof.
  split; [reflexivity|].
  refine (proj1 (selection_refers_to_an_option
                   (Sample.reviewing_after [KeyDown "2"])
                   Sample.portrait_item _ eq_refl _) "opt2"%string eq_refl).
  - exists (QueueLoaded (Some Sample.replies) :: [KeyDown "2"]). reflexivity.
  - simpl. discriminate.
Defined.

(** The run above in full: from the last option, the right arrow wraps to
    the first, and key 2 selects the second. *)
Example arrow_right_wraps :
  step (Sample.reviewing Sample.portrait_item (Some "opt2"%string))
       (KeyDown "ArrowRight")
  = Done (Sample.reviewing Sample.portrait_item (Some "opt1"%string)) [].
Proof. reflexivity. Qed.

Example arrow_left_wraps :
  step (Sample.reviewing Sample.portrait_item (Some "opt1"%string))
       (KeyDown "ArrowLeft")
  = Done (Sample.reviewing Sample.portrait_item (Some "opt2"%string)) [].
Proof. reflexivity. Qed.

Example key_2_selects_second :
  step (Sample.reviewing Sample.portrait_item (Some "opt1"%string)) (KeyDown "2")
  = Done (Sample.reviewing Sample.portrait_item (Some "opt2"%string)) [].
Proof. reflexivity. Qed.

Example key_2_after_refresh :
  selectedOption (Sample.reviewing_after [KeyDown "2"]) = Some "opt2"%string.
Proof. reflexivity. Qed.

Example key_3_out_of_range :
  step (Sample.reviewing Sample.portrait_item (Some "opt1"%string)) (KeyDown "3")
  = Done (Sample.reviewing Sample.portrait_item (Some "opt1"%string)) [].
Proof. reflexivity. Qed.


Lemma count_Some (s : QueueStatus.t) (field : QueueStatus.t -> Z) :
  count (Some s) field = field s.
Proof.
  unfold count. simpl. destruct (Z.eqb_spec (field s) 0) as [E|]; [|reflexivity].
  now rewrite E.
Qed.

(** Which events change the status, and to what: a refresh that succeeded
    stores the status it fetched, a pushed update stores the one it
    carries, and nothing else writes it. *)
Lemma status_is_latest_fetched (st st' : State) (e : Event) (sent : list Request) :
  step st e = Done st' sent ->
  status st' =
    match e with
    | QueueLoaded (Some r) => Some (statusRes r)
    | StatusUpdate s => Some s
    | _ => status st
    end.
Proof.
  destruct e as [key | b | i | | | url | | replies | | s | a s p]; simpl;
    unfold handleKeyDown, click, onClick, clickOption, handlePauseResume,
      handleStop, handleApprove, handleReject, handleRegenerate, handleSkip,
      navigateOption, loadQueue;
    intros H; split_cases_in H;
    try discriminate H; injection H as <- _; simpl; congruence.
Qed.

Lemma emptyStateView_cases (s : QueueStatus.t) :
  counts_nonneg s ->
  (is_all_done (emptyStateView (Some s)) = true <->
     0 < QueueStatus.total_assets s /\
     QueueStatus.total_assets s
       <= QueueStatus.completed_assets s + QueueStatus.failed_assets s /\
     QueueStatus.currently_generating s = 0 /\
     QueueStatus.pending s = 0 /\
     QueueStatus.awaiting_approval s = 0)
  /\ (is_all_done (emptyStateView (Some s)) = true ->
      emptyStateView (Some s)
      = AllDone (QueueStatus.completed_assets s)
                (if QueueStatus.failed_assets s >? 0
                 then Some (QueueStatus.failed_assets s) else None))
  /\ (0 < QueueStatus.currently_generating s ->
      emptyStateView (Some s)
      = Generating (QueueStatus.currently_generating s)
          (QueueStatus.total_assets s
           - (QueueStatus.completed_assets s + QueueStatus.failed_assets s))).
Proof.
  intros (Ht & Hcp & Hf & Ha & Hg & Hp).
  unfold emptyStateView. rewrite !count_Some. simpl.
  rewrite !Z.gtb_ltb, Z.geb_leb.
  destruct (Z.ltb_spec 0 (QueueStatus.currently_generating s));
    destruct (Z.ltb_spec 0 (QueueStatus.pending s));
    destruct (Z.ltb_spec 0 (QueueStatus.awaiting_approval s));
    destruct (Z.ltb_spec 0 (QueueStatus.total_assets s
                            - (QueueStatus.completed_assets s
                               + QueueStatus.failed_assets s)));
    destruct (Z.ltb_spec 0 (QueueStatus.total_assets s));
    destruct (Z.leb_spec (QueueStatus.total_assets s)
                (QueueStatus.completed_assets s + QueueStatus.failed_assets s));
    destruct (QueueStatus.is_running s); simpl;
    (split;
     [split; intros H'; first [discriminate H' | reflexivity | lia] |]);
    (split; intros H'; first [discriminate H' | reflexivity | lia]).
Qed.

(** C8: with no item on screen the panel is computed from the stored
    status alone.  It is the "All done!" screen exactly when there are
    assets, completed plus failed ones cover the total, and nothing is
    generating, pending or awaiting approval; it is the generating screen
    whenever something is generating; the counts each screen shows are the
    fields of that status; and the stored status is the one fetched last,
    by a refresh or by a pushed update. *)
Theorem empty_state_all_done (st : State) (s : QueueStatus.t) :
  currentItem st = None ->
  status st = Some s ->
  counts_nonneg s ->
  mainArea st = EmptyState (emptyStateView (Some s))
  /\ (is_all_done (emptyStateView (Some s)) = true <->
        0 < QueueStatus.total_assets s /\
        QueueStatus.total_assets s
          <= QueueStatus.completed_assets s + QueueStatus.failed_assets s /\
        QueueStatus.currently_generating s = 0 /\
        QueueStatus.pending s = 0 /\
        QueueStatus.awaiting_approval s = 0)
  /\ (is_all_done (emptyStateView (Some s)) = true ->
      emptyStateView (Some s)
      = AllDone (QueueStatus.completed_assets s)
                (if QueueStatus.failed_assets s >? 0
                 then Some (QueueStatus.failed_assets s) else None))
  /\ (0 < QueueStatus.currently_generating s ->
      emptyStateView (Some s)
      = Generating (QueueStatus.currently_generating s)
          (QueueStatus.total_assets s
           - (QueueStatus.completed_assets s + QueueStatus.failed_assets s)))
  /\ (forall e st' sent,
        step st e = Done st' sent ->
        status st' =
          match e with
          | QueueLoaded (Some r) => Some (statusRes r)
          | StatusUpdate s' => Some s'
          | _ => Some s
          end).
Proof.
  intros Hc Hs Hnn.
  destruct (emptyStateView_cases s Hnn) as (Hiff & Hdone & Hgen).
  split; [unfold mainArea; now rewrite Hc, Hs|].
  split; [exact Hiff|]. split; [exact Hdone|]. split; [exact Hgen|].
  intros e st' sent He. rewrite (status_is_latest_fetched _ _ _ _ He), Hs.
  reflexivity.
Qed.

Lemma empty_state_all_done_witness :
  mainArea (mkState (Some Sample.all_done_status) None [] [] None false None true)
  = EmptyState (AllDone 1 (Some 1)).
Proof.
  refine (proj1 (empty_state_all_done
                   (mkState (Some Sample.all_done_status) None [] [] None false None true)
                   Sample.all_done_status eq_refl eq_refl _)).
  unfold counts_nonneg. simpl. lia.
Defined.

End InteractiveQueueFacts.

(** ** The pipeline editors *)

Section PipelineEditors.

(** Rewriting the steps that carry an id rewrites one position when ids are
    not shared. *)
Lemma update_by_id_is_insert (f : PipelineStep.t -> PipelineStep.t)
    (pipeline : list PipelineStep.t) (i : nat) (step : PipelineStep.t) :
  NoDup (PipelineStep.id <$> pipeline) ->
  pipeline !! i = Some step ->
  (fun s => if String.eqb (PipelineStep.id s) (PipelineStep.id step) then f s else s)
    <$> pipeline
  = <[i := f step]> pipeline.
Proof.
  intros Hnd Hi. apply list_eq. intros j.
  rewrite list_lookup_fmap.
  destruct (decide (i = j)) as [<- | Hij].
  - rewrite list_lookup_insert_eq by (eapply lookup_lt_Some; eauto).
    rewrite Hi. simpl. now rewrite String.eqb_refl.
  - rewrite list_lookup_insert_ne by exact Hij.
    destruct (pipeline !! j) as [s|] eqn:Hj; [|reflexivity]. simpl.
    destruct (String.eqb_spec (PipelineStep.id s) (PipelineStep.id step)) as [E|];
      [|reflexivity].
    exfalso. apply Hij.
    apply (NoDup_lookup _ i j (PipelineStep.id step) Hnd);
      rewrite list_lookup_fmap.
    + now rewrite Hi.
    + rewrite Hj. simpl. now rewrite E.
Qed.

(** Steps with another id are never touched, whatever the ids. *)
Lemma onApprovalModeChange_other (stepId value : string)
    (pipeline : list PipelineStep.t) (j : nat) (s : PipelineStep.t) :
  pipeline !! j = Some s ->
  PipelineStep.id s <> stepId ->
  ArtDirection.onApprovalModeChange stepId value pipeline !! j = Some s.
Proof.
  intros Hj Hne. unfold ArtDirection.onApprovalModeChange.
  rewrite list_lookup_fmap, Hj. simpl.
  destruct (String.eqb_spec (PipelineStep.id s) stepId); [contradiction | reflexivity].
Qed.

(** C10: toggling the approval mode of a step rewrites that step only, and
    only its [variations]: to [max 2 variations] for "Choose 1 of N" and to
    1 for "Accept/Reject"; its other fields and all other steps stay as
    they were.  Steps are told apart by id, so ids are taken to be unique,
    as the data model has them.  The mode shown for a step is
    "Choose 1 of N" exactly when its [variations] exceeds 1. *)
Theorem approval_mode_changes_variations_only (pipeline : list PipelineStep.t)
    (i : nat) (step : PipelineStep.t) :
  NoDup (PipelineStep.id <$> pipeline) ->
  pipeline !! i = Some step ->
  ArtDirection.onApprovalModeChange (PipelineStep.id step) "choose" pipeline
    = <[i := PipelineStep.mk
               (PipelineStep.id step) (PipelineStep.type step)
               (PipelineStep.provider step) (PipelineStep.prompt_template step)
               (PipelineStep.requires_approval step)
               (Z.max 2 (PipelineStep.variations step))
               (PipelineStep.parallel_with step) (PipelineStep.config step)]>
        pipeline
  /\ ArtDirection.onApprovalModeChange (PipelineStep.id step) "accept" pipeline
    = <[i := PipelineStep.mk
               (PipelineStep.id step) (PipelineStep.type step)
               (PipelineStep.provider step) (PipelineStep.prompt_template step)
               (PipelineStep.requires_approval step)
               1
               (PipelineStep.parallel_with step) (PipelineStep.config step)]>
        pipeline
  /\ (forall value j s,
        j <> i -> pipeline !! j = Some s ->
        ArtDirection.onApprovalModeChange (PipelineStep.id step) value pipeline !! j
          = Some s)
  /\ (ArtDirection.approvalModeLabel (ArtDirection.approvalMode step)
        = "Choose 1 of N"%string
      <-> 1 < PipelineStep.variations step).
Proof.
  intros Hnd Hi. split; [|split; [|split]].
  - unfold ArtDirection.onApprovalModeChange. simpl.
    now rewrite (update_by_id_is_insert _ pipeline i step Hnd Hi).
  - unfold ArtDirection.onApprovalModeChange. simpl.
    now rewrite (update_by_id_is_insert _ pipeline i step Hnd Hi).
  - intros value j s Hji Hj. apply onApprovalModeChange_other; [exact Hj|].
    intros E. apply Hji.
    apply (NoDup_lookup _ j i (PipelineStep.id step) Hnd);
      rewrite list_lookup_fmap.
    + rewrite Hj. simpl. now rewrite E.
    + now rewrite Hi.
  - unfold ArtDirection.approvalModeLabel, ArtDirection.approvalMode.
    rewrite Z.gtb_ltb.
    destruct (Z.ltb_spec 1 (PipelineStep.variations step)); simpl;
      split; intros H'; first [reflexivity | discriminate H' | lia].
Qed.

Lemma approval_mode_changes_variations_only_witness :
  ArtDirection.onApprovalModeChange "portrait" "choose" Sample.pipeline
  = [Sample.step_ "name" "generate_name" 4;
     Sample.step_ "portrait" "generate_image" 2].
Proof.
  refine (proj1 (approval_mode_changes_variations_only Sample.pipeline 1
                   (Sample.step_ "portrait" "generate_image" 1) _ eq_refl)).
  apply NoDup_cons. split.
  - intros H. apply list_elem_of_singleton in H. discriminate H.
  - apply NoDup_singleton.
Defined.

(** When two steps share an id, the toggle rewrites both. *)
Example approval_mode_shared_id :
  PipelineStep.variations <$>
    ArtDirection.onApprovalModeChange "a" "accept"
      [Sample.step_ "a" "generate_image" 4; Sample.step_ "a" "generate_text" 2]
  = [1; 1].
Proof. reflexivity. Qed.

(** The steps [addStep] makes from the templates on offer have their
    template's [variations], which is at least 1. *)
Lemma addStep_variations (template : FlowSetup.StepTemplate) (now : Z)
    (prev : list PipelineStep.t) :
  template ∈ FlowSetup.STEP_TEMPLATES ->
  exists step,
    FlowSetup.addStep template now prev = prev ++ [step] /\
    Some (PipelineStep.variations step)
      = PipelineStep.p_variations (FlowSetup.defaultConfig template) /\
    1 <= PipelineStep.variations step.
Proof.
  intros Hin. eexists. split; [reflexivity|]. simpl.
  unfold FlowSetup.STEP_TEMPLATES in Hin.
  repeat (apply elem_of_cons in Hin as [-> | Hin]; [simpl; split; [reflexivity | lia] |]).
  apply elem_of_nil in Hin. contradiction.
Qed.

(** An edit whose text does not parse, or parses to 0, stores 1; any other
    number is stored as it is. *)
Lemma edited_variations_value (value : string) :
  JS.or_number (JS.parseInt value) 1 =
    match JS.parseInt value with
    | None => 1
    | Some n => if n =? 0 then 1 else n
    end.
Proof. reflexivity. Qed.

Lemma edited_variations_empty : JS.or_number (JS.parseInt "") 1 = 1.
Proof. reflexivity. Qed.

Lemma flow_onVariationsChange_lookup (index : nat) (value : string)
    (prev : list PipelineStep.t) (step : PipelineStep.t) :
  prev !! index = Some step ->
  FlowSetup.onVariationsChange index value prev !! index
  = Some (PipelineStep.with_variations (JS.or_number (JS.parseInt value) 1) step).
Proof.
  intros Hi. unfold FlowSetup.onVariationsChange, FlowSetup.updateStep.
  rewrite list_lookup_imap, Hi. simpl.
  rewrite bool_decide_eq_true_2 by reflexivity.
  now destruct step.
Qed.

(** A parsed value that is not negative leaves [variations] at 1 or more. *)
Lemma edited_variations_positive (value : string) :
  (forall n, JS.parseInt value = Some n -> 0 <= n) ->
  1 <= JS.or_number (JS.parseInt value) 1.
Proof.
  intros H. destruct (JS.parseInt value) as [n|] eqn:E; simpl; [|lia].
  specialize (H n eq_refl). destruct (Z.eqb_spec n 0); lia.
Qed.

(** C6 says that every step created or edited through the two editors has
    [variations >= 1].  The code breaks it for a negative entry: typing
    [-3] into the Variations input stores -3 in the step, in the Flow Setup
    editor and in the Art Direction editor alike, because [parseInt] reads
    the sign and [|| 1] replaces only [NaN] and 0. *)
Theorem variations_edit_stores_negative :
  JS.parseInt "-3" = Some (-3)
  /\ PipelineStep.variations <$> FlowSetup.onVariationsChange 1 "-3" Sample.pipeline
     = [4; -3]
  /\ PipelineStep.variations <$>
       ArtDirection.onVariationsChange "portrait" "-3" Sample.pipeline
     = [4; -3].
Proof. repeat split; reflexivity. Qed.

End PipelineEditors.

(** ** The classic approval queue *)

Section ClassicQueue.
Import ApprovalQueue.

(** C7: a rejection carries [modified_prompt] only when regeneration is
    asked for and the prompt input is not empty, and then it is the text
    of the input; a plain reject carries none.  Once the request has gone
    through, the prompt input and the selected variation are cleared. *)
Theorem rejection_prompt_only_on_regenerate (item : QueueItem)
    (regenerate ok : bool) (st : State) :
  exists data st',
    handleReject item regenerate ok st
      = (st', submitApproval data :: (if ok then [onRefresh] else []))
    /\ data_asset_id data = id (asset item)
    /\ data_step_id data = step_id item
    /\ data_approved data = false
    /\ data_regenerate data = Some regenerate
    /\ (forall p, data_modified_prompt data = Some p <->
                  regenerate = true /\ p = modifiedPrompt st /\ p <> ""%string)
    /\ (regenerate = false -> data_modified_prompt data = None)
    /\ (ok = true ->
        modifiedPrompt st' = ""%string /\ selectedVariation st' = None).
Proof.
  exists (mkData (id (asset item)) (step_id item) false None (Some regenerate)
            (if regenerate
             then (if JS.truthy_string (modifiedPrompt st)
                   then Some (modifiedPrompt st) else None)
             else None)),
         (fst (handleReject item regenerate ok st)).
  split; [destruct ok; reflexivity|]. simpl.
  do 4 (split; [reflexivity|]).
  unfold JS.truthy_string.
  split; [|split].
  - intros p. destruct regenerate;
      destruct (String.eqb_spec (modifiedPrompt st) ""); simpl; split;
      first [ discriminate
            | intros (? & ? & ?); congruence
            | intros [= <-]; auto ].
  - intros ->. reflexivity.
  - intros ->. split; reflexivity.
Qed.

(** A request that fails leaves the prompt and the selection as typed. *)
Example failed_rejection_keeps_prompt :
  handleReject Sample.queue_item true false (mkState 0 (Some 1%nat) false "moodier")
  = (mkState 0 (Some 1%nat) false "moodier",
     [submitApproval
        (mkData "card-001" "portrait" false None (Some true) (Some "moodier"%string))]).
Proof. reflexivity. Qed.

Example plain_reject_sends_no_prompt :
  handleReject Sample.queue_item false true (mkState 0 (Some 1%nat) false "moodier")
  = (mkState 0 None false "",
     [submitApproval (mkData "card-001" "portrait" false None (Some false) None);
      onRefresh]).
Proof. reflexivity. Qed.

End ClassicQueue.

(** ** The asset state machine *)

Section AttemptBound.
Import AssetStateMachine Props.
Local Open Scope nat_scope.

Variable maxAttempts : nat.
Variable policy : ExhaustionPolicy.

Lemma terminal_absorbs (a : Asset) (i : Input) :
  terminal (state a) = true -> transition maxAttempts policy a i = a.
Proof.
  unfold transition. destruct (state a); try discriminate; now destruct i.
Qed.

Lemma run_terminal (a : Asset) (inputs : list Input) :
  terminal (state a) = true -> run maxAttempts policy a inputs = a.
Proof.
  intros Ht. unfold run.
  induction inputs as [|i inputs IH]; simpl; [reflexivity|].
  now rewrite terminal_absorbs.
Qed.

Lemma exhausted_terminal : terminal (exhausted policy) = true.
Proof. now destruct policy. Qed.

Lemma drive_terminal (fuel : nat) (a : Asset) :
  terminal (state a) = true -> drive maxAttempts policy fuel a = a.
Proof.
  destruct fuel; simpl; [reflexivity|]. unfold reject_everything.
  destruct (state a); try discriminate; reflexivity.
Qed.

Lemma attempts_bounded_initial (remaining : nat) :
  attempts_bounded maxAttempts (initial remaining).
Proof. unfold attempts_bounded. simpl. now split. Qed.

Lemma attempts_bounded_step (a : Asset) (i : Input) :
  attempts_bounded maxAttempts a ->
  attempts_bounded maxAttempts (transition maxAttempts policy a i).
Proof.
  unfold attempts_bounded, transition.
  destruct (state a) eqn:Hs; destruct i; simpl; rewrite ?Hs; simpl;
    try (intros H; exact H); try (intros [H1 H2]; lia).
  - destruct (Nat.leb_spec maxAttempts (attempt a)); destruct policy; simpl;
      intros [H1 H2]; lia.
  - destruct (remaining_steps a); simpl; rewrite ?Hs; simpl; intros H; lia.
Qed.

Lemma attempts_bounded_run (a : Asset) (inputs : list Input) :
  attempts_bounded maxAttempts a ->
  attempts_bounded maxAttempts (run maxAttempts policy a inputs).
Proof.
  unfold run. revert a.
  induction inputs as [|i inputs IH]; intros a Ha; simpl; [exact Ha|].
  apply IH. now apply attempts_bounded_step.
Qed.

(** From a generation in progress with [d] attempts left, the rejecting
    run takes three inputs per further attempt and two to give up. *)
Lemma drive_from_generating (d : nat) :
  forall k g r fuel,
    1 <= k ->
    k + d = Nat.max 1 maxAttempts ->
    3 * d + 2 <= fuel ->
    drive maxAttempts policy fuel (mk GENERATING k g r)
    = mk (exhausted policy) (k + d) (g + d) r.
Proof.
  induction d as [|d IH]; intros k g r fuel H1 Hk Hf.
  - destruct fuel as [|[|fuel]]; try lia.
    cbn [drive reject_everything transition state enter attempt generations
         remaining_steps].
    destruct (Nat.leb_spec maxAttempts k); [|lia].
    rewrite drive_terminal by apply exhausted_terminal.
    unfold enter. simpl. f_equal; lia.
  - destruct fuel as [|[|[|fuel]]]; try lia.
    cbn [drive reject_everything transition state enter attempt generations
         remaining_steps].
    destruct (Nat.leb_spec maxAttempts k); [lia|].
    unfold enter.
    cbn [drive reject_everything transition state enter attempt generations
         remaining_steps].
    rewrite (IH (S k) (S g) r fuel) by lia. f_equal; lia.
Qed.

Lemma drive_rejecting (remaining fuel : nat) :
  3 * Nat.max 1 maxAttempts <= fuel ->
  drive maxAttempts policy fuel (initial remaining)
  = mk (exhausted policy) (Nat.max 1 maxAttempts) (Nat.max 1 maxAttempts) remaining.
Proof.
  intros Hf. destruct fuel as [|fuel]; [lia|].
  cbn [drive reject_everything transition state initial attempt generations
       remaining_steps].
  rewrite (drive_from_generating (Nat.max 1 maxAttempts - 1) 1 1 remaining fuel)
    by lia.
  f_equal; lia.
Qed.

End AttemptBound.

Section AttemptBoundClaim.
Import AssetStateMachine Props.
Local Open Scope nat_scope.

(** C1: on the state machine of the specification, for any inputs: once
    the generation attempts of a step have reached [max_attempts], a
    rejection moves the asset to SKIPPED (to FAILED under the hard-fail
    policy), which is terminal, and no later input starts a generation or
    changes anything; below the bound a rejection leads to one more
    generation; the number of attempts never passes the bound; and when
    every approval is rejected the asset ends after exactly [max_attempts]
    generation attempts, 3 for [max_attempts = 3], in SKIPPED. *)
Theorem attempts_end_in_skipped (maxAttempts : nat) (policy : ExhaustionPolicy)
    (remaining : nat) :
  (forall inputs later,
     let a := run maxAttempts policy (initial remaining) inputs in
     state a = AWAITING_APPROVAL ->
     maxAttempts <= generations a ->
     let a' := transition maxAttempts policy a reject in
     state a' = exhausted policy
     /\ terminal (state a') = true
     /\ generations a' = generations a
     /\ run maxAttempts policy a' later = a')
  /\ (forall inputs,
       let a := run maxAttempts policy (initial remaining) inputs in
       state a = AWAITING_APPROVAL ->
       generations a < maxAttempts ->
       run maxAttempts policy a [reject; dispatch]
       = mk GENERATING (S (attempt a)) (S (generations a)) (remaining_steps a))
  /\ (forall inputs,
       generations (run maxAttempts policy (initial remaining) inputs)
       <= Nat.max 1 maxAttempts)
  /\ (1 <= maxAttempts ->
      forall fuel, 3 * maxAttempts <= fuel ->
        drive maxAttempts policy fuel (initial remaining)
        = mk (exhausted policy) maxAttempts maxAttempts remaining)
  /\ drive 3 skip_asset 9 (initial 0) = mk SKIPPED 3 3 0.
Proof.
  split; [|split; [|split; [|split]]].
  - intros inputs later a Hs Hm a'.
    pose proof (attempts_bounded_run maxAttempts policy _ inputs
                  (attempts_bounded_initial maxAttempts remaining)) as Hb.
    fold a in Hb. unfold attempts_bounded in Hb. rewrite Hs in Hb.
    destruct Hb as [Hg Ha].
    assert (a' = enter (exhausted policy) a) as ->.
    { subst a'. unfold transition. rewrite Hs.
      destruct (Nat.leb_spec maxAttempts (attempt a)); [reflexivity | lia]. }
    simpl. repeat split; try reflexivity.
    + apply exhausted_terminal.
    + apply run_terminal. simpl. apply exhausted_terminal.
  - intros inputs a Hs Hm.
    pose proof (attempts_bounded_run maxAttempts policy _ inputs
                  (attempts_bounded_initial maxAttempts remaining)) as Hb.
    fold a in Hb. unfold attempts_bounded in Hb. rewrite Hs in Hb.
    destruct Hb as [Hg Ha].
    unfold run. simpl. unfold transition at 2. rewrite Hs.
    destruct (Nat.leb_spec maxAttempts (attempt a)); [lia|].
    reflexivity.
  - intros inputs.
    pose proof (attempts_bounded_run maxAttempts policy _ inputs
                  (attempts_bounded_initial maxAttempts remaining)) as Hb.
    unfold attempts_bounded in Hb.
    destruct (state (run maxAttempts policy (initial remaining) inputs));
      lia.
  - intros Hm fuel Hf.
    rewrite drive_rejecting by lia. f_equal; lia.
  - reflexivity.
Qed.

Lemma attempts_end_in_skipped_witness :
  state (transition 3 skip_asset
           (run 3 skip_asset (initial 0)
              [dispatch; generated; reject; dispatch; generated; reject;
               dispatch; generated])
           reject) = SKIPPED.
Proof.
  exact (proj1 (proj1 (attempts_end_in_skipped 3 skip_asset 0)
                  [dispatch; generated; reject; dispatch; generated; reject;
                   dispatch; generated] [] eq_refl (le_n 3))).
Defined.

(** The bound at work on the scenario of the specification: two attempts
    allowed, both rejected, and the asset is skipped without a third. *)
Example two_attempts_then_skipped :
  run 2 skip_asset (initial 0)
      [dispatch; generated; reject; dispatch; generated; reject; dispatch; generated]
  = mk SKIPPED 2 2 0.
Proof. reflexivity. Qed.

Example two_attempts_then_failed :
  run 2 hard_fail (initial 0)
      [dispatch; generated; reject; dispatch; generated; reject; dispatch]
  = mk FAILED 2 2 0.
Proof. reflexivity. Qed.

End AttemptBoundClaim.

(** ** More about the interactive queue *)

Section InteractiveQueueMore.
Import InteractiveQueue Props.

(** No handler of the component throws, whatever the state. *)
Lemma step_never_throws (st : State) (e : Event) :
  exists st' sent, step st e = Done st' sent.
Proof.
  destruct e as [key | b | i | | | url | | replies | | s | a s p]; simpl; eauto.
  - unfold handleKeyDown.
    destruct (currentItem st) as [item|] eqn:Hc; [|eauto].
    destruct (loading st) eqn:Hl; [eauto|].
    destruct (JS.str_ge key "1" && JS.str_le key "9") eqn:Hk.
    + destruct (number_key_selects st item key Hc Hl Hk) as [n [Hp [Hn Hkd]]].
      unfold handleKeyDown in Hkd. rewrite Hc, Hl, Hk in Hkd. rewrite Hkd.
      destruct (ApprovalItem.options item !! Z.to_nat (n - 1)); eauto.
    + assert (forall d, d = -1 \/ d = 1 -> exists st' sent,
                navigateOption d st = Done st' sent) as Hnav.
      { intros d Hd. unfold navigateOption. rewrite Hc.
        destruct (Z.eqb_spec (Z.of_nat (length (ApprovalItem.options item))) 0);
          [eauto|].
        destruct (index_in_range (ApprovalItem.options item)
                    (navigateIndex (ApprovalItem.options item) (selectedOption st) d))
          as [o [Hi _]].
        { apply navigateIndex_range; [|exact Hd].
          destruct (ApprovalItem.options item); [simpl in *; lia | discriminate]. }
        rewrite Hi. eauto. }
      unfold handleApprove, handleReject, handleRegenerate, handleSkip.
      rewrite Hc.
      repeat match goal with
             | |- context [if ?b then _ else _] => destruct b
             end; eauto.
  - unfold click, onClick, handleApprove, handleReject, handleRegenerate, handleSkip.
    destruct (rendered st b && negb (disabled st b)); [|eauto].
    destruct b; destruct (currentItem st); eauto.
  - unfold clickOption. destruct (currentItem st) as [item|]; [|eauto].
    destruct (ApprovalItem.options item !! i); eauto.
  - unfold handlePauseResume.
    destruct (status st) as [s|]; [destruct (QueueStatus.is_paused s)|]; eauto.
Qed.

(** While a request is in flight, an event other than its settling sends
    no request about an item and leaves it in flight. *)
Lemma step_while_loading (st st' : State) (e : Event) (sent : list Request) :
  loading st = true ->
  e <> RequestSettled ->
  step st e = Done st' sent ->
  loading st' = true /\ item_requests sent = [].
Proof.
  intros Hl He.
  destruct e as [key | b | i | | | url | | replies | | s | a s p]; simpl;
    try congruence.
  - unfold handleKeyDown. rewrite Hl.
    destruct (currentItem st); intros [= <- <-]; auto.
  - unfold click, disabled. rewrite Hl.
    replace (rendered st b && negb _) with false
      by (destruct b; rewrite ?orb_true_r; simpl; now rewrite andb_false_r).
    intros [= <- <-]; auto.
  - unfold clickOption. intros H. split_cases_in H; injection H as <- <-; auto.
  - unfold handlePauseResume. intros H.
    split_cases_in H; injection H as <- <-; auto.
  - unfold handleStop. intros [= <- <-]; auto.
  - intros [= <- <-]; auto.
  - intros [= <- <-]; auto.
  - intros [= <- <-]; split; [|reflexivity].
    destruct replies as [r|]; [|exact Hl]. unfold loadQueue.
    repeat match goal with
           | |- context [match ?x with _ => _ end] => destruct x
           end; exact Hl.
  - intros [= <- <-]; auto.
  - intros [= <- <-]; auto.
Qed.

(** An event sends at most one request about an item, and one that does
    leaves [loading] set. *)
Lemma step_sends_one (st st' : State) (e : Event) (sent : list Request) :
  step st e = Done st' sent ->
  (length (item_requests sent) <= 1)%nat /\
  (item_requests sent <> [] -> loading st' = true).
Proof.
  destruct e as [key | b | i | | | url | | replies | | s | a s p]; simpl;
    unfold handleKeyDown, click, onClick, clickOption, handlePauseResume,
      handleStop, handleApprove, handleReject, handleRegenerate, handleSkip,
      navigateOption;
    intros H; split_cases_in H;
    try discriminate H; injection H as <- <-;
    (split; [simpl; lia | try reflexivity; try (intros []; reflexivity)]).
Qed.

Lemma item_requests_app (a b : list Request) :
  item_requests (a ++ b) = item_requests a ++ item_requests b.
Proof. unfold item_requests. apply filter_app. Qed.

Lemma run_while_loading (events : list Event) :
  forall st,
    loading st = true ->
    Forall (fun e => e <> RequestSettled) events ->
    item_requests (snd (run st events)) = [].
Proof.
  induction events as [|e events IH]; intros st Hl Hall; simpl; [reflexivity|].
  apply Forall_cons in Hall as [He Hall].
  destruct (step_never_throws st e) as [st' [sent Hs]]. rewrite Hs.
  destruct (step_while_loading st st' e sent Hl He Hs) as [Hl' Hnone].
  specialize (IH st' Hl' Hall).
  destruct (run st' events) as [final later]. simpl in *.
  now rewrite item_requests_app, Hnone, IH.
Qed.

(** X1: between two settlings the component sends at most one request about
    an item (approve, reject, regenerate or skip): whatever the keys and
    clicks, and whatever refreshes and pushed updates come in between. *)
Theorem one_request_in_flight (st : State) (events : list Event) :
  Forall (fun e => e <> RequestSettled) events ->
  (length (item_requests (snd (run st events))) <= 1)%nat
  /\ (loading st = true -> item_requests (snd (run st events)) = []).
Proof.
  intros Hall. split; [|intros Hl; now apply run_while_loading].
  revert st. induction events as [|e events IH]; intros st; simpl; [lia|].
  apply Forall_cons in Hall as [He Hall].
  destruct (step_never_throws st e) as [st' [sent Hs]]. rewrite Hs.
  destruct (step_sends_one st st' e sent Hs) as [Hone Hload].
  specialize (IH Hall st').
  pose proof (run_while_loading events st') as Hrest.
  destruct (run st' events) as [final later]. simpl in *.
  rewrite item_requests_app, length_app.
  destruct (item_requests sent) as [|rq rest] eqn:Hsent; [simpl; lia|].
  rewrite Hrest; [simpl in *; lia | | exact Hall].
  apply Hload. discriminate.
Qed.

Lemma one_request_in_flight_witness :
  (length (item_requests
             (snd (run (Sample.reviewing Sample.sprite_item None)
                       [KeyDown "y"; KeyDown "n"; Click BtnAccept; KeyDown "s"])))
   <= 1)%nat.
Proof.
  refine (proj1 (one_request_in_flight (Sample.reviewing Sample.sprite_item None)
                   [KeyDown "y"; KeyDown "n"; Click BtnAccept; KeyDown "s"] _)).
  repeat constructor; discriminate.
Defined.

Lemma item_request_needs_idle (st : State) (e : Event) (rq : Request) :
  rq ∈ requests (step st e) ->
  is_Some (request_item_id rq) ->
  loading st = false.
Proof.
  intros Hin Hid. destruct (loading st) eqn:Hl; [exfalso | reflexivity].
  destruct (step_never_throws st e) as [st' [sent Hs]].
  rewrite Hs in Hin. simpl in Hin.
  assert (e = RequestSettled \/ e <> RequestSettled) as [-> | He]
    by (destruct e; auto; right; discriminate).
  - simpl in Hs. injection Hs as _ <-. now apply elem_of_nil in Hin.
  - destruct (step_while_loading st st' e sent Hl He Hs) as [_ Hnone].
    assert (rq ∈ item_requests sent) as Hrq
      by (apply list_elem_of_filter; auto).
    rewrite Hnone in Hrq. now apply elem_of_nil in Hrq.
Qed.

(** X2: every request about an item names the item on screen and is sent
    only while no other request is in flight; with nothing on screen no
    such request is sent at all. *)
Theorem requests_name_current_item (st : State) (e : Event) (rq : Request)
    (itemId : string) :
  rq ∈ requests (step st e) ->
  request_item_id rq = Some itemId ->
  loading st = false /\
  exists item, currentItem st = Some item /\ ApprovalItem.id item = itemId.
Proof.
  intros Hin Hid.
  split; [apply (item_request_needs_idle st e rq Hin); rewrite Hid; eauto|].
  destruct (currentItem st) as [item|] eqn:Hc.
  - exists item. split; [reflexivity|].
    destruct (step_requests_cases st item e rq Hc Hin)
      as [[-> _] | [[-> _] | [-> | [-> | [-> | [-> | ->]]]]]];
      simpl in Hid; try discriminate Hid; now injection Hid.
  - exfalso.
    destruct e as [key | b | i | | | url | | replies | | s | a s p];
      simpl in Hin;
      unfold handleKeyDown, click, rendered, clickOption, handlePauseResume,
        handleStop in Hin;
      rewrite ?Hc in Hin; simpl in Hin;
      split_cases_in Hin; sole_request Hin; discriminate Hid.
Qed.

Lemma requests_name_current_item_witness :
  loading (Sample.reviewing Sample.sprite_item None) = false /\
  exists item,
    currentItem (Sample.reviewing Sample.sprite_item None) = Some item /\
    ApprovalItem.id item = "item-b"%string.
Proof.
  apply (requests_name_current_item (Sample.reviewing Sample.sprite_item None)
           (KeyDown "s") (skipApproval "item-b")).
  - apply list_elem_of_here.
  - reflexivity.
Defined.


(** X3: a progress notice touches nothing but the [progress] of the
    generating items of that asset and step: the list keeps its length and
    order, the other items and the other fields stay as they were, and a
    notice about an item that is not listed changes nothing at all (it is
    not added). *)
Theorem progress_updates_in_place (assetId stepId : string) (p : Z) (st : State) :
  length (generatingItems (onProgress assetId stepId p st))
    = length (generatingItems st)
  /\ (forall j g,
        generatingItems st !! j = Some g ->
        generatingItems (onProgress assetId stepId p st) !! j
        = Some (if String.eqb (GeneratingItem.asset_id g) assetId
                   && String.eqb (GeneratingItem.step_id g) stepId
                then GeneratingItem.mk
                       (GeneratingItem.id g) (GeneratingItem.asset_id g)
                       (GeneratingItem.asset_description g)
                       (GeneratingItem.step_id g) (GeneratingItem.step_name g)
                       p (GeneratingItem.started_at g)
                else g))
  /\ ((forall g, g ∈ generatingItems st ->
         GeneratingItem.asset_id g <> assetId \/ GeneratingItem.step_id g <> stepId) ->
      onProgress assetId stepId p st = st)
  /\ (status (onProgress assetId stepId p st) = status st
      /\ currentItem (onProgress assetId stepId p st) = currentItem st
      /\ pendingItems (onProgress assetId stepId p st) = pendingItems st
      /\ selectedOption (onProgress assetId stepId p st) = selectedOption st
      /\ loading (onProgress assetId stepId p st) = loading st).
Proof.
  unfold onProgress. simpl. split; [apply length_fmap|].
  split; [|split; [|repeat split]].
  - intros j g Hj. rewrite list_lookup_fmap, Hj. reflexivity.
  - intros Hnone.
    assert (((fun item =>
                if String.eqb (GeneratingItem.asset_id item) assetId
                   && String.eqb (GeneratingItem.step_id item) stepId
                then GeneratingItem.with_progress p item else item)
               <$> generatingItems st) = generatingItems st) as ->.
    { induction (generatingItems st) as [|g gs IH]; [reflexivity|].
      rewrite fmap_cons, IH by (intros g' Hg'; apply Hnone; now right).
      destruct (Hnone g) as [Ha | Hs]; [now left | |].
      - destruct (String.eqb_spec (GeneratingItem.asset_id g) assetId);
          [contradiction | reflexivity].
      - destruct (String.eqb_spec (GeneratingItem.step_id g) stepId);
          [contradiction | now rewrite andb_false_r]. }
    now destruct st.
Qed.

(** X4: the sidebar accounts for every pending item: it lists the first
    five in order, and says how many more there are exactly when there are
    more than five. *)
Theorem sidebar_counts_every_pending (st : State) :
  fst (sidebarPending st) `prefix_of` pendingItems st
  /\ (length (fst (sidebarPending st)) <= 5)%nat
  /\ Z.of_nat (length (fst (sidebarPending st))) + default 0 (snd (sidebarPending st))
     = Z.of_nat (length (pendingItems st))
  /\ (snd (sidebarPending st) = None <-> (length (pendingItems st) <= 5)%nat)
  /\ (forall more, snd (sidebarPending st) = Some more -> 0 < more).
Proof.
  unfold sidebarPending. simpl. rewrite Z.gtb_ltb.
  split; [apply prefix_take|].
  rewrite length_take.
  destruct (Z.ltb_spec 5 (Z.of_nat (length (pendingItems st)))); cbn -[Nat.min Z.of_nat Z.sub Z.add];
    (split; [lia|]); (split; [lia|]);
    (split; [split; intros H'; first [discriminate H' | reflexivity | lia] |]);
    intros more H'; first [discriminate H' | injection H' as <-; lia].
Qed.

(** X5: an accept/reject item is approved without any selection: the
    Accept button is enabled whenever no request is in flight, Y and Enter
    do the same as the button, and the decision sent is [approved = true]
    for the item on screen with the selected id if there is one and none
    otherwise; straight after a refresh there is none. *)
Theorem accept_needs_no_selection (st : State) (item : ApprovalItem.t) :
  currentItem st = Some item ->
  ApprovalItem.approval_type item = accept_reject ->
  loading st = false ->
  click st BtnAccept
    = Done (setLoading true st)
        [submitInteractiveApproval
           (ApprovalDecision.mk (ApprovalItem.id item) true
              (JS.or_undefined (selectedOption st)) None)]
  /\ (forall key,
        JS.toLowerCase key = "y"%string \/ JS.toLowerCase key = "enter"%string ->
        handleKeyDown st key = click st BtnAccept)
  /\ (rendered st BtnSelect = false)
  /\ (forall st0 r,
        nextRes r = Some item ->
        click (loadQueue st0 (Some r)) BtnAccept
        = if loading st0 then Done (loadQueue st0 (Some r)) []
          else Done (setLoading true (loadQueue st0 (Some r)))
                 [submitInteractiveApproval
                    (ApprovalDecision.mk (ApprovalItem.id item) true None None)]).
Proof.
  intros Hc Ht Hl.
  assert (is_choose_one item = false) as Hco
    by (unfold is_choose_one; now rewrite Ht).
  assert (is_accept_reject item = true) as Har
    by (unfold is_accept_reject; now rewrite Ht).
  assert (click st BtnAccept = handleApprove st) as Hclick.
  { unfold click, rendered, disabled. now rewrite Hc, Hco, Hl. }
  split; [|split; [|split]].
  - rewrite Hclick. unfold handleApprove. now rewrite Hc.
  - intros key Hk. rewrite Hclick. unfold handleKeyDown. rewrite Hc, Hl.
    destruct Hk as [Hk | Hk].
    + rewrite (letter_key_not_number key "y" "" Hk eq_refl).
      rewrite Hk, Har, (orb_true_r (JS.truthy (selectedOption st))). reflexivity.
    + rewrite (letter_key_not_number key "e" "nter" Hk eq_refl).
      rewrite Hk, Har, (orb_true_r (JS.truthy (selectedOption st))). reflexivity.
  - unfold rendered. now rewrite Hc, Hco.
  - intros st0 r Hn. unfold click, rendered, disabled, loadQueue.
    rewrite Hn, Hco. simpl. rewrite Hco. simpl.
    destruct (loading st0); simpl; [reflexivity|].
    unfold handleApprove. simpl. reflexivity.
Qed.

Lemma accept_needs_no_selection_witness :
  click (Sample.reviewing Sample.sprite_item None) BtnAccept
  = Done (setLoading true (Sample.reviewing Sample.sprite_item None))
      [submitInteractiveApproval (ApprovalDecision.mk "item-b" true None None)].
Proof.
  exact (proj1 (accept_needs_no_selection
                  (Sample.reviewing Sample.sprite_item None) Sample.sprite_item
                  eq_refl eq_refl eq_refl)).
Defined.

End InteractiveQueueMore.

(** ** More about the pipeline editors *)

Section PipelineEditorsMore.

(** X6: dragging a step over another moves it there and nothing else: the
    pipeline keeps its steps (none lost, none doubled), the dragged step
    sits at the target position, the other steps keep their order, and the
    drag goes on from the new position.  Dragging over the step itself, or
    with no drag started, changes nothing. *)
Theorem drag_reorders_without_loss (st : FlowSetupDrag.State)
    (dragged index : nat) (x : PipelineStep.t) :
  FlowSetupDrag.draggedIndex st = Some dragged ->
  FlowSetupDrag.pipeline st !! dragged = Some x ->
  (index < length (FlowSetupDrag.pipeline st))%nat ->
  dragged <> index ->
  exists st',
    FlowSetupDrag.handleDragOver index st = JS.Ok st'
    /\ FlowSetupDrag.pipeline st' ≡ₚ FlowSetupDrag.pipeline st
    /\ length (FlowSetupDrag.pipeline st') = length (FlowSetupDrag.pipeline st)
    /\ FlowSetupDrag.pipeline st' !! index = Some x
    /\ delete index (FlowSetupDrag.pipeline st')
       = delete dragged (FlowSetupDrag.pipeline st)
    /\ FlowSetupDrag.draggedIndex st' = Some index
    /\ FlowSetupDrag.handleDragOver index st' = JS.Ok st'.
Proof.
  intros Hd Hx Hi Hne.
  unfold FlowSetupDrag.handleDragOver. rewrite Hd, Hx.
  rewrite bool_decide_eq_false_2 by exact Hne.
  eexists. split; [reflexivity|]. simpl.
  set (rest := delete dragged (FlowSetupDrag.pipeline st)).
  assert (length rest = (length (FlowSetupDrag.pipeline st) - 1)%nat) as Hlen.
  { subst rest. rewrite length_delete; [reflexivity | eauto]. }
  assert (length (take index rest) = index) as Htake
    by (rewrite length_take; lia).
  unfold JS.splice_insert.
  split; [|split; [|split; [|split; [|split]]]].
  - rewrite <- Permutation_middle, take_drop.
    subst rest. symmetry. now apply delete_Permutation.
  - rewrite length_app. simpl. rewrite length_drop, Htake. lia.
  - rewrite lookup_app_r by lia. rewrite Htake, Nat.sub_diag. reflexivity.
  - rewrite <- Htake at 1. rewrite delete_middle. apply take_drop.
  - reflexivity.
  - rewrite bool_decide_eq_true_2; reflexivity.
Qed.

Lemma drag_reorders_without_loss_witness :
  FlowSetupDrag.handleDragOver 0
    (FlowSetupDrag.mkState Sample.pipeline (Some 1%nat))
  = JS.Ok (FlowSetupDrag.mkState
             [Sample.step_ "portrait" "generate_image" 1;
              Sample.step_ "name" "generate_name" 4]
             (Some 0%nat)).
Proof.
  destruct (drag_reorders_without_loss
              (FlowSetupDrag.mkState Sample.pipeline (Some 1%nat)) 1 0
              (Sample.step_ "portrait" "generate_image" 1)
              eq_refl eq_refl ltac:(simpl; lia) ltac:(discriminate))
    as [st' [H _]].
  reflexivity.
Defined.

(** X7: [updateStep] rewrites the step at the index and no other: the
    pipeline keeps its length, every other position keeps its step, the
    keys absent from the update keep their values, and an index past the
    end changes nothing. *)
Theorem updateStep_touches_one_step (index : nat)
    (updates : PipelineStep.partial) (prev : list PipelineStep.t) :
  length (FlowSetup.updateStep index updates prev) = length prev
  /\ (forall j, j <> index ->
        FlowSetup.updateStep index updates prev !! j = prev !! j)
  /\ (forall step, prev !! index = Some step ->
        FlowSetup.updateStep index updates prev
        = <[index := PipelineStep.spread step updates]> prev)
  /\ ((length prev <= index)%nat ->
      FlowSetup.updateStep index updates prev = prev)
  /\ FlowSetup.updateStep index PipelineStep.no_updates prev = prev.
Proof.
  unfold FlowSetup.updateStep.
  assert (forall j, imap (fun i step =>
                      if bool_decide (i = index)
                      then PipelineStep.spread step updates else step) prev !! j
                    = (fun step => if bool_decide (j = index)
                                   then PipelineStep.spread step updates else step)
                        <$> prev !! j) as Hlook
    by (intros j; apply list_lookup_imap).
  split; [apply length_imap|]. split; [|split; [|split]].
  - intros j Hj. rewrite Hlook. rewrite bool_decide_eq_false_2 by exact Hj.
    now destruct (prev !! j).
  - intros step Hs. apply list_eq. intros j. rewrite Hlook.
    destruct (decide (j = index)) as [-> | Hj].
    + rewrite list_lookup_insert_eq by (eapply lookup_lt_Some; eauto).
      rewrite Hs. simpl. now rewrite bool_decide_eq_true_2.
    + rewrite list_lookup_insert_ne by congruence.
      rewrite bool_decide_eq_false_2 by exact Hj. now destruct (prev !! j).
  - intros Hge. apply list_eq. intros j. rewrite Hlook.
    destruct (prev !! j) as [s|] eqn:Hj; [|reflexivity]. simpl.
    apply lookup_lt_Some in Hj.
    rewrite bool_decide_eq_false_2 by lia. reflexivity.
  - apply list_eq. intros j. rewrite list_lookup_imap.
    destruct (prev !! j) as [s|]; [|reflexivity]. simpl.
    destruct (bool_decide (j = index)); [|reflexivity]. now destruct s.
Qed.

(** X8: [removeStep] drops the step at the index and closes the gap: the
    steps before it stay, those after it move up by one, an index past the
    end removes nothing; and removing the step [addStep] has just added
    gives back the pipeline as it was. *)
Theorem removeStep_closes_the_gap (index : nat) (prev : list PipelineStep.t) :
  (forall j, (j < index)%nat -> FlowSetup.removeStep index prev !! j = prev !! j)
  /\ (forall j, (index <= j)%nat ->
        FlowSetup.removeStep index prev !! j = prev !! S j)
  /\ ((index < length prev)%nat ->
      S (length (FlowSetup.removeStep index prev)) = length prev)
  /\ ((length prev <= index)%nat -> FlowSetup.removeStep index prev = prev)
  /\ (forall template now,
        FlowSetup.removeStep (length prev) (FlowSetup.addStep template now prev)
        = prev).
Proof.
  unfold FlowSetup.removeStep. split; [|split; [|split; [|split]]].
  - intros j Hj. now apply list_lookup_delete_lt.
  - intros j Hj. now apply list_lookup_delete_ge.
  - intros Hi. destruct (lookup_lt_is_Some_2 prev index Hi) as [x Hx].
    rewrite length_delete by eauto. lia.
  - intros Hge. apply list_eq. intros j.
    destruct (decide (j < index)%nat).
    + now apply list_lookup_delete_lt.
    + rewrite list_lookup_delete_ge by lia.
      rewrite !lookup_ge_None_2 by lia. reflexivity.
  - intros template now. unfold FlowSetup.addStep. cbv zeta.
    rewrite delete_middle. apply app_nil_r.
Qed.


Lemma parse_digits_nonneg (radix : Z) (s : string) (n : Z) :
  0 < radix -> JS.parse_digits radix s None = Some n -> 0 <= n.
Proof.
  intros Hr. destruct s as [|c s]; simpl; [discriminate|].
  destruct (JS.digit_value c) as [d|] eqn:Hd; [|discriminate].
  destruct (d <? radix); [|discriminate].
  pose proof (digit_value_nonneg _ _ Hd) as Hd0.
  destruct (parse_digits_from radix s (0 * radix + d)) as [b [Hb Hle]];
    [lia | lia |].
  simpl in Hb. simpl. rewrite Hb. intros [= <-]. lia.
Qed.

Lemma strip_sign_minus_or_plain (s : string) :
  (exists rest, s = String "-" rest /\ JS.strip_sign s = (-1, rest))
  \/ (exists s', JS.strip_sign s = (1, s')).
Proof.
  destruct s as [|c rest]; [right; eexists; reflexivity|].
  destruct c as [[] [] [] [] [] [] [] []];
    first [ left; eexists; split; reflexivity
          | right; eexists; reflexivity ].
Qed.

Lemma strip_hex_prefix_radix (s : string) :
  0 < fst (JS.strip_hex_prefix s).
Proof.
  unfold JS.strip_hex_prefix.
  repeat match goal with
         | |- context [match ?x with _ => _ end] => destruct x
         end; simpl; lia.
Qed.

(** X9: the Variations inputs of both editors store a value below 1 only
    for an entry that starts, after white space, with a minus sign; every
    other entry leaves the step with [variations >= 1]. *)
Theorem variations_below_one_needs_minus (value : string) :
  JS.or_number (JS.parseInt value) 1 < 1 ->
  (exists rest, JS.trimStart value = String "-" rest)
  /\ (forall index prev step,
        prev !! index = Some step ->
        exists step',
          FlowSetup.onVariationsChange index value prev !! index = Some step'
          /\ PipelineStep.variations step' < 1)
  /\ (forall prev step,
        step ∈ prev ->
        exists step',
          step' ∈ ArtDirection.onVariationsChange (PipelineStep.id step) value prev
          /\ PipelineStep.variations step' < 1).
Proof.
  intros Hlt. split; [|split].
  - unfold JS.parseInt in Hlt.
    destruct (strip_sign_minus_or_plain (JS.trimStart value))
      as [[rest [Hs _]] | [s' Hs]]; [eauto|].
    exfalso. rewrite Hs in Hlt.
    pose proof (strip_hex_prefix_radix s') as Hr.
    destruct (JS.strip_hex_prefix s') as [radix s2]. simpl in Hr.
    destruct (JS.parse_digits radix s2 None) as [n|] eqn:Hp; simpl in Hlt; [|lia].
    pose proof (parse_digits_nonneg radix s2 n Hr Hp).
    destruct n; simpl in Hlt; lia.
  - intros index prev step Hi.
    exists (PipelineStep.with_variations (JS.or_number (JS.parseInt value) 1) step).
    split; [apply flow_onVariationsChange_lookup; exact Hi | exact Hlt].
  - intros prev step Hin.
    exists (PipelineStep.with_variations (JS.or_number (JS.parseInt value) 1) step).
    split; [|exact Hlt].
    unfold ArtDirection.onVariationsChange.
    apply list_elem_of_fmap. exists step. split; [|exact Hin].
    now rewrite String.eqb_refl.
Qed.

Lemma variations_below_one_needs_minus_witness :
  exists rest, JS.trimStart " -3" = String "-" rest.
Proof.
  refine (proj1 (variations_below_one_needs_minus " -3" _)).
  vm_compute. reflexivity.
Defined.

(** What every other entry stores. *)
Lemma variations_without_minus (value : string) :
  (forall rest, JS.trimStart value <> String "-" rest) ->
  1 <= JS.or_number (JS.parseInt value) 1.
Proof.
  intros Hno.
  destruct (Z.le_gt_cases 1 (JS.or_number (JS.parseInt value) 1)) as [H | H];
    [exact H|].
  assert (JS.or_number (JS.parseInt value) 1 < 1) as Hlt by lia.
  unfold JS.parseInt in Hlt.
  destruct (strip_sign_minus_or_plain (JS.trimStart value))
    as [[rest [Hs _]] | [s' Hs]]; [now apply Hno in Hs|].
  exfalso. rewrite Hs in Hlt.
  pose proof (strip_hex_prefix_radix s') as Hr.
  destruct (JS.strip_hex_prefix s') as [radix s2]. simpl in Hr.
  destruct (JS.parse_digits radix s2 None) as [n|] eqn:Hp; simpl in Hlt; [|lia].
  pose proof (parse_digits_nonneg radix s2 n Hr Hp).
  destruct n; simpl in Hlt; lia.
Qed.

(** X10: expanding and collapsing a step are inverse: toggling a step
    twice gives back the set of expanded steps, one toggle flips the step
    and leaves every other step as it was. *)
Theorem toggleStep_flips_one (stepId : string) (prev : gset string) :
  ArtDirectionStyle.toggleStep stepId (ArtDirectionStyle.toggleStep stepId prev) = prev
  /\ (stepId ∈ ArtDirectionStyle.toggleStep stepId prev <-> stepId ∉ prev)
  /\ (forall other, other <> stepId ->
        (other ∈ ArtDirectionStyle.toggleStep stepId prev <-> other ∈ prev)).
Proof.
  unfold ArtDirectionStyle.toggleStep.
  destruct (decide (stepId ∈ prev)) as [Hin | Hnin].
  - rewrite (bool_decide_eq_true_2 _ Hin).
    rewrite bool_decide_eq_false_2
      by (rewrite elem_of_difference, elem_of_singleton; tauto).
    split; [|split].
    + apply set_eq. intros x.
      rewrite elem_of_union, elem_of_difference, elem_of_singleton.
      destruct (decide (x = stepId)); subst; tauto.
    + rewrite elem_of_difference, elem_of_singleton. tauto.
    + intros other Hne. rewrite elem_of_difference, elem_of_singleton. tauto.
  - rewrite (bool_decide_eq_false_2 _ Hnin).
    rewrite bool_decide_eq_true_2
      by (rewrite elem_of_union, elem_of_singleton; tauto).
    split; [|split].
    + apply set_eq. intros x.
      rewrite elem_of_difference, elem_of_union, elem_of_singleton.
      destruct (decide (x = stepId)); subst; tauto.
    + rewrite elem_of_union, elem_of_singleton. tauto.
    + intros other Hne. rewrite elem_of_union, elem_of_singleton. tauto.
Qed.

(** X11: a style preset replaces the style prompt and empties the suffix,
    whatever was typed there, and leaves the negative prompt, the aspect
    ratio and the image size alone; applying it twice is the same as
    applying it once. *)
Theorem style_preset_overwrites_prompts (preset : string * StyleConfig.partial)
    (prev : StyleConfig.t) :
  preset ∈ ArtDirectionStyle.STYLE_PRESETS ->
  Some (StyleConfig.global_prompt_prefix (ArtDirectionStyle.applyPreset preset prev))
    = StyleConfig.p_global_prompt_prefix (snd preset)
  /\ StyleConfig.global_prompt_suffix (ArtDirectionStyle.applyPreset preset prev)
     = ""%string
  /\ StyleConfig.negative_prompt (ArtDirectionStyle.applyPreset preset prev)
     = StyleConfig.negative_prompt prev
  /\ StyleConfig.aspect_ratio (ArtDirectionStyle.applyPreset preset prev)
     = StyleConfig.aspect_ratio prev
  /\ StyleConfig.image_size (ArtDirectionStyle.applyPreset preset prev)
     = StyleConfig.image_size prev
  /\ ArtDirectionStyle.applyPreset preset (ArtDirectionStyle.applyPreset preset prev)
     = ArtDirectionStyle.applyPreset preset prev.
Proof.
  intros Hin. unfold ArtDirectionStyle.STYLE_PRESETS in Hin.
  repeat (apply elem_of_cons in Hin as [-> | Hin]; [repeat split |]).
  apply elem_of_nil in Hin. contradiction.
Qed.

Lemma style_preset_overwrites_prompts_witness :
  StyleConfig.global_prompt_suffix
    (ArtDirectionStyle.applyPreset
       ("Pixel Art"%string,
        ArtDirectionStyle.preset_style
          "Pixel art style, 32-bit, retro game aesthetic, clean pixel edges.")
       (StyleConfig.mk "" "high quality, 4k" "" "1:1" "1K"))
  = ""%string.
Proof.
  refine (proj1 (proj2 (style_preset_overwrites_prompts _ _ _))).
  apply list_elem_of_further, list_elem_of_here.
Defined.

(** X12: editing a step's prompt and changing a step's approval mode or
    variations do not interfere: a prompt edit keeps the ids and the
    variations of every step, and the edits give the same pipeline in
    either order. *)
Theorem prompt_edit_commutes_with_variations (a p b v : string)
    (prev : list PipelineStep.t) :
  PipelineStep.id <$> ArtDirection.updateStepPrompt a p prev = PipelineStep.id <$> prev
  /\ PipelineStep.variations <$> ArtDirection.updateStepPrompt a p prev
     = PipelineStep.variations <$> prev
  /\ ArtDirection.updateStepPrompt a p (ArtDirection.onApprovalModeChange b v prev)
     = ArtDirection.onApprovalModeChange b v (ArtDirection.updateStepPrompt a p prev)
  /\ ArtDirection.updateStepPrompt a p (ArtDirection.onVariationsChange b v prev)
     = ArtDirection.onVariationsChange b v (ArtDirection.updateStepPrompt a p prev).
Proof.
  unfold ArtDirection.updateStepPrompt, ArtDirection.onApprovalModeChange,
    ArtDirection.onVariationsChange.
  rewrite <- !list_fmap_compose.
  repeat split; apply list_fmap_ext; intros i s _; simpl;
    destruct (String.eqb (PipelineStep.id s) a) eqn:Ea;
    destruct (String.eqb (PipelineStep.id s) b) eqn:Eb;
    simpl; rewrite ?Ea, ?Eb; reflexivity.
Qed.

End PipelineEditorsMore.

(** ** The content input *)

Section TrimFacts.






End TrimFacts.

Section FilterFacts.
Context {A : Type} (P : A -> Prop) `{forall x, Decision (P x)}.


Lemma filter_drops_all (l : list A) :
  (forall x, x ∈ l -> ~ P x) -> filter P l = [].
Proof.
  induction l as [|x l IH]; intros Hall; [reflexivity|].
  rewrite filter_cons_False by (apply Hall; left).
  apply IH. intros y Hy. apply Hall. now right.
Qed.

End FilterFacts.

Section ContentInputFacts.
Import ContentInput Props.












(** A list of lines whose first line has a comma is read as CSV; its first
    line is then the header, and without a description column nothing is
    left of the list. *)
Example comma_in_first_line_loses_the_list :
  detectFormat "Fire Dragon, with scales
Ice Wizard" = csv
  /\ parseDelimited "," "Fire Dragon, with scales
Ice Wizard" = [].
Proof. split; reflexivity. Qed.

Example csv_with_header :
  parseDelimited "," "id,name,rarity
d1, Fire Dragon ,rare
,Ice Wizard,
x,,common"
  = [mkItem "d1" "Fire Dragon" (Some {[ "rarity"%string := JS.JStr "rare" ]});
     mkItem "item_2" "Ice Wizard" (Some {[ "rarity"%string := JS.JStr "" ]})].
Proof. vm_compute. reflexivity. Qed.






Example comma_on_a_later_line_is_text :
  detectFormat "Fire Dragon
Ice Wizard, holding a staff" = text.
Proof. reflexivity. Qed.




End ContentInputFacts.

(** ** The asset list and the classic queue *)

Section AssetListFacts.
Import ApprovalQueue AssetList Props.

(** X18: the thumbnail of an asset.  When every selected index points into
    its variations, computing it does not throw; a thumbnail, when there
    is one, is the file address of the chosen variation (the selected one,
    or the first when none is selected) of a completed result, and that
    variation is an image or a sprite with a path; and an asset with no
    completed result has none. *)
Theorem thumbnail_is_a_chosen_image (API_BASE : string) (values : list StepResult) :
  Forall selection_in_range values ->
  exists thumbnail,
    thumbnailUrl API_BASE values = JS.Ok thumbnail
    /\ (forall url,
          thumbnail = Some url ->
          exists result artifact p,
            result ∈ values
            /\ result_status result = completed
            /\ JS.index (variations result) (JS.nullish (selected_index result) 0)
               = Some artifact
            /\ (type artifact = "image"%string \/ type artifact = "sprite"%string)
            /\ path artifact = Some p /\ p <> ""%string
            /\ url = Client.getFileUrl API_BASE p)
    /\ ((forall result, result ∈ values -> result_status result <> completed) ->
        thumbnail = None).
Proof.
  induction values as [|result rest IH]; intros Hall.
  - exists None. split; [reflexivity|]. split; [discriminate | reflexivity].
  - apply Forall_cons in Hall as [Hsel Hall].
    destruct (IH Hall) as [t [Hrest [Hurl Hnone]]].
    assert (exists thumbnail,
              thumbnailUrl API_BASE rest = JS.Ok thumbnail
              /\ (forall url, thumbnail = Some url ->
                    exists result0 artifact p,
                      result0 ∈ result :: rest
                      /\ result_status result0 = completed
                      /\ JS.index (variations result0)
                           (JS.nullish (selected_index result0) 0) = Some artifact
                      /\ (type artifact = "image"%string
                          \/ type artifact = "sprite"%string)
                      /\ path artifact = Some p /\ p <> ""%string
                      /\ url = Client.getFileUrl API_BASE p)
              /\ ((forall result0, result0 ∈ result :: rest ->
                     result_status result0 <> completed) ->
                  thumbnail = None)) as Hskip.
    { exists t. split; [exact Hrest|]. split.
      - intros url Hu. destruct (Hurl url Hu) as (r & a & p & Hin & H').
        exists r, a, p. split; [now right | exact H'].
      - intros Hno. apply Hnone. intros r Hr. apply Hno. now right. }
    simpl.
    destruct (is_completed (result_status result)) eqn:Hc; [|exact Hskip].
    destruct (Z.ltb_spec 0 (Z.of_nat (length (variations result)))) as [Hlen|];
      [|exact Hskip].
    simpl.
    destruct (index_in_range (variations result)
                (JS.nullish (selected_index result) 0)) as [artifact [Hi _]].
    { unfold selection_in_range in Hsel. unfold JS.nullish.
      destruct (selected_index result); simpl; lia. }
    rewrite Hi.
    destruct ((String.eqb (type artifact) "image"
               || String.eqb (type artifact) "sprite")
              && JS.truthy (path artifact)) eqn:Hshow; [|exact Hskip].
    apply andb_true_iff in Hshow as [Hty Hp].
    destruct (truthy_Some_inv _ Hp) as [p [Hpath Hne]].
    assert (result_status result = completed) as Hdone
      by (destruct (result_status result); try discriminate Hc; reflexivity).
    exists (Client.getFileUrl API_BASE <$> path artifact).
    split; [reflexivity|]. split.
    + intros url Hu. rewrite Hpath in Hu. injection Hu as <-.
      exists result, artifact, p. split; [now left|].
      split; [exact Hdone|]. split; [exact Hi|]. split; [|auto].
      apply orb_true_iff in Hty as [Hty | Hty]; apply String.eqb_eq in Hty; auto.
    + intros Hno. exfalso. apply (Hno result); [now left | exact Hdone].
Qed.

Lemma thumbnail_is_a_chosen_image_witness :
  exists thumbnail,
    thumbnailUrl "http://localhost:8000"
      [mkStepResult "portrait" completed
         [mkArtifact "image" (Some "outputs/a/v1.png"%string) None ∅ "t";
          mkArtifact "image" (Some "outputs/a/v2.png"%string) None ∅ "t"]
         (Some 1) true None None None]
    = JS.Ok thumbnail.
Proof.
  destruct (thumbnail_is_a_chosen_image "http://localhost:8000"
              [mkStepResult "portrait" completed
                 [mkArtifact "image" (Some "outputs/a/v1.png"%string) None ∅ "t";
                  mkArtifact "image" (Some "outputs/a/v2.png"%string) None ∅ "t"]
                 (Some 1) true None None None])
    as [thumbnail [H _]].
  - repeat constructor; simpl; lia.
  - exists thumbnail. exact H.
Defined.

Example thumbnail_of_selected_variation :
  thumbnailUrl "http://localhost:8000"
    [mkStepResult "research" completed
       [mkArtifact "research" None (Some "notes"%string) ∅ "t"] None true None None None;
     mkStepResult "portrait" completed
       [mkArtifact "image" (Some "outputs/a/v1.png"%string) None ∅ "t";
        mkArtifact "image" (Some "outputs/a/v2.png"%string) None ∅ "t"]
       (Some 1) true None None None]
  = JS.Ok (Some "http://localhost:8000/files/outputs/a/v2.png"%string).
Proof. reflexivity. Qed.

(** A selected index past the variations makes the list throw. *)
Example thumbnail_of_stale_selection :
  thumbnailUrl "http://localhost:8000"
    [mkStepResult "portrait" completed
       [mkArtifact "image" (Some "outputs/a/v1.png"%string) None ∅ "t"]
       (Some 3) true None None None]
  = JS.Throws.
Proof. reflexivity. Qed.

End AssetListFacts.

Section ClassicQueueMore.
Import ApprovalQueue.

(** X19: the classic queue approves only a selected variation: with none
    selected nothing is sent; otherwise the decision is [approved = true]
    for the asset and step shown, with the selected index and no prompt.
    Once it has gone through the selection is cleared and the list
    refreshed; the typed prompt stays either way, and a failure keeps the
    selection. *)
Theorem classic_approve_sends_selection (item : QueueItem) (ok : bool) (st : State) :
  (selectedVariation st = None -> handleApprove item ok st = (st, []))
  /\ (forall v,
        selectedVariation st = Some v ->
        handleApprove item ok st
        = (mkState (currentIndex st) (if ok then None else Some v) false
                   (modifiedPrompt st),
           submitApproval
             (mkData (id (asset item)) (step_id item) true (Some (Z.of_nat v))
                None None)
           :: (if ok then [onRefresh] else []))).
Proof.
  unfold handleApprove, handleApprove_send, handleApprove_settle. split.
  - now intros ->.
  - intros v Hv. rewrite Hv. unfold setLoading, setSelectedVariation. simpl.
    rewrite ?Hv. destruct ok; simpl; rewrite ?Hv; reflexivity.
Qed.

(** X20: Previous and Next move one item at a time and stay inside the
    queue: from an index in the queue they give an index in the queue,
    they stop at the first and at the last item, Previous undoes Next, and
    neither touches the selected variation or the typed prompt, so a
    variation selected on one item is still selected, by its number, on
    the item moved to, and Approve then sends that number for that item. *)
Theorem classic_navigation_stays_in_queue (queue : list QueueItem) (st : State) :
  (currentIndex st < length queue)%nat ->
  (currentIndex (clickPrevious st) < length queue)%nat
  /\ (currentIndex (clickNext queue st) < length queue)%nat
  /\ currentIndex (clickPrevious st) = (currentIndex st - 1)%nat
  /\ currentIndex (clickNext queue st)
     = Nat.min (length queue - 1) (currentIndex st + 1)
  /\ ((currentIndex st + 1 < length queue)%nat ->
      clickPrevious (clickNext queue st) = st)
  /\ (selectedVariation (clickNext queue st) = selectedVariation st
      /\ modifiedPrompt (clickNext queue st) = modifiedPrompt st
      /\ selectedVariation (clickPrevious st) = selectedVariation st
      /\ modifiedPrompt (clickPrevious st) = modifiedPrompt st)
  /\ (forall v item,
        selectedVariation st = Some v ->
        currentItem queue (clickNext queue st) = Some item ->
        snd (handleApprove_send item (clickNext queue st))
        = [submitApproval
             (mkData (id (asset item)) (step_id item) true (Some (Z.of_nat v))
                None None)]).
Proof.
  intros Hin.
  assert (Hprev : clickPrevious st
                  = setCurrentIndex (currentIndex st - 1) st).
  { unfold clickPrevious, previousDisabled. case_bool_decide as Hz.
    - destruct st as [i s l m]. simpl in *. subst i. reflexivity.
    - f_equal. lia. }
  assert (Hnext : clickNext queue st
                  = setCurrentIndex (Nat.min (length queue - 1) (currentIndex st + 1)) st).
  { unfold clickNext, nextDisabled. case_bool_decide as Hz.
    - destruct st as [i s l m]. simpl in *. unfold setCurrentIndex. simpl.
      f_equal. lia.
    - f_equal. lia. }
  rewrite Hprev, Hnext. simpl.
  split; [lia|]. split; [lia|]. split; [reflexivity|]. split; [reflexivity|].
  split; [|split; [auto|]].
  - intros Hlt. unfold clickPrevious, previousDisabled. simpl.
    rewrite bool_decide_eq_false_2 by lia.
    destruct st as [i s l m]. unfold setCurrentIndex. simpl in *. f_equal. lia.
  - intros v item Hv _. unfold handleApprove_send. simpl. now rewrite Hv.
Qed.

Lemma classic_navigation_stays_in_queue_witness :
  (currentIndex (clickNext [Sample.queue_item; Sample.queue_item]
                   (mkState 0 (Some 2%nat) false ""))
   < length [Sample.queue_item; Sample.queue_item])%nat.
Proof.
  refine (proj1 (proj2 (classic_navigation_stays_in_queue
                          [Sample.queue_item; Sample.queue_item]
                          (mkState 0 (Some 2%nat) false "") _))).
  simpl. lia.
Defined.

(** X21: the classic queue shows the item at the index it holds.  With an
    empty queue it shows the empty message; with the index inside the
    queue it shows that item, with Approve enabled exactly when a
    variation is selected and nothing is loading; with a queue that is not
    empty but ends before the index, rendering throws.  Approving and
    rejecting never move the index, so after deciding the last of several
    items the refreshed, shorter queue is rendered at an index it no
    longer has. *)
Theorem classic_render_needs_index_in_queue (queue : list QueueItem) (st : State) :
  (queue = [] -> render queue st = JS.Ok NoItems)
  /\ (forall item,
        queue !! currentIndex st = Some item ->
        render queue st
        = JS.Ok (Reviewing item (currentIndex st + 1) (length queue)
                   (match selectedVariation st with
                    | Some _ => loading st
                    | None => true
                    end)))
  /\ (queue <> [] -> (length queue <= currentIndex st)%nat ->
      render queue st = JS.Throws)
  /\ (forall item regenerate ok,
        currentIndex (fst (handleReject item regenerate ok st)) = currentIndex st
        /\ currentIndex (fst (handleApprove item ok st)) = currentIndex st)
  /\ (forall item regenerate ok refreshed,
        refreshed <> [] ->
        (length refreshed <= currentIndex st)%nat ->
        render refreshed (fst (handleReject item regenerate ok st)) = JS.Throws
        /\ render refreshed (fst (handleApprove item ok st)) = JS.Throws).
Proof.
  assert (Hthrow : forall q s, q <> [] -> (length q <= currentIndex s)%nat ->
                               render q s = JS.Throws).
  { intros q s Hne Hge. unfold render, currentItem.
    rewrite bool_decide_eq_false_2
      by (destruct q; [contradiction | discriminate]).
    now rewrite lookup_ge_None_2. }
  assert (Hkeep : forall item regenerate ok,
            currentIndex (fst (handleReject item regenerate ok st)) = currentIndex st
            /\ currentIndex (fst (handleApprove item ok st)) = currentIndex st).
  { intros item regenerate ok.
    unfold handleReject, handleReject_send, handleReject_settle, handleApprove,
      handleApprove_send, handleApprove_settle.
    destruct ok, (selectedVariation st); simpl; auto. }
  split; [|split; [|split; [|split]]].
  - intros ->. reflexivity.
  - intros item Hi. unfold render, currentItem. rewrite Hi.
    rewrite bool_decide_eq_false_2
      by (intros E; apply length_zero_iff_nil in E; now rewrite E in Hi).
    destruct (selectedVariation st); reflexivity.
  - apply Hthrow.
  - exact Hkeep.
  - intros item regenerate ok refreshed Hne Hge.
    destruct (Hkeep item regenerate ok) as [Hr Ha].
    split; apply Hthrow; try exact Hne; lia.
Qed.

(** Two items, the second rejected: the queue comes back with one item
    and the index still at the second. *)
Example rejecting_the_last_item_breaks_the_view :
  render [Sample.queue_item]
    (fst (handleReject Sample.queue_item false true (mkState 1 None false "")))
  = JS.Throws.
Proof. reflexivity. Qed.

End ClassicQueueMore.

(** ** Messages from the server *)

Section WebSocketFacts.
Import InteractiveQueue.

(** X22: a message pushed by the server calls at most one callback, and in
    the queue view it never sends a request nor touches [loading].  A
    progress message is passed on when it names an asset and a step and
    carries a progress, 0 included; messages about a finished or failed
    generation do nothing; a new-approval message makes the view reload,
    and what it shows afterwards comes from the replies alone, not from
    the item in the message; any other message leaves the item on screen
    and the selection as they were. *)
Theorem pushed_message_effect (replies : option QueueResponses)
    (message : UseWebSocket.WSMessage) (st : State) :
  (length (UseWebSocket.onmessage message) <= 1)%nat
  /\ snd (run st (UseWebSocket.queueEvents replies message)) = []
  /\ loading (fst (run st (UseWebSocket.queueEvents replies message))) = loading st
  /\ (forall a s p,
        UseWebSocket.type message = "generation_progress"%string ->
        UseWebSocket.asset_id message = Some a -> a <> ""%string ->
        UseWebSocket.step_id message = Some s -> s <> ""%string ->
        UseWebSocket.progress message = Some p ->
        UseWebSocket.queueEvents replies message = [Progress a s p])
  /\ (UseWebSocket.type message = "generation_complete"%string
      \/ UseWebSocket.type message = "generation_error"%string ->
      UseWebSocket.queueEvents replies message = [])
  /\ (forall i,
        UseWebSocket.type message = "new_approval"%string ->
        UseWebSocket.item message = Some i ->
        fst (run st (UseWebSocket.queueEvents replies message))
        = loadQueue st replies)
  /\ (UseWebSocket.type message <> "new_approval"%string ->
      currentItem (fst (run st (UseWebSocket.queueEvents replies message)))
        = currentItem st
      /\ selectedOption (fst (run st (UseWebSocket.queueEvents replies message)))
         = selectedOption st).
Proof.
  assert (Hcases :
    UseWebSocket.onmessage message = []
    \/ exists cb, UseWebSocket.onmessage message = [cb]
                  /\ (forall i, cb = UseWebSocket.onNewApproval i ->
                        UseWebSocket.type message = "new_approval"%string)).
  { unfold UseWebSocket.onmessage.
    destruct (String.eqb_spec (UseWebSocket.type message) "connected") as [E1|_].
    { simpl. destruct (UseWebSocket.status message); [right|auto].
      eexists. split; [reflexivity|]. discriminate. }
    destruct (String.eqb_spec (UseWebSocket.type message) "queue_update") as [E2|_].
    { simpl. destruct (UseWebSocket.status message); [right|auto].
      eexists. split; [reflexivity|]. discriminate. }
    simpl.
    destruct (String.eqb_spec (UseWebSocket.type message) "new_approval") as [E3|_].
    { destruct (UseWebSocket.item message); [right|auto].
      eexists. split; [reflexivity|]. auto. }
    destruct (String.eqb_spec (UseWebSocket.type message) "generation_progress")
      as [E4|_].
    { destruct (UseWebSocket.asset_id message) as [a|]; [|auto].
      destruct (UseWebSocket.step_id message) as [s|]; [|auto].
      destruct (UseWebSocket.progress message) as [p|]; [|auto].
      destruct (JS.truthy_string a && JS.truthy_string s); [right|auto].
      eexists. split; [reflexivity|]. discriminate. }
    destruct (String.eqb_spec (UseWebSocket.type message) "generation_complete")
      as [E5|_].
    { destruct (UseWebSocket.asset_id message) as [a|]; [|auto].
      destruct (UseWebSocket.step_id message) as [s|]; [|auto].
      destruct (JS.truthy_string a && JS.truthy_string s); [right|auto].
      eexists. split; [reflexivity|]. discriminate. }
    destruct (String.eqb_spec (UseWebSocket.type message) "generation_error")
      as [E6|_]; [|auto].
    destruct (UseWebSocket.asset_id message) as [a|]; [|auto].
    destruct (UseWebSocket.step_id message) as [s|]; [|auto].
    destruct (UseWebSocket.error message) as [e|]; [|auto].
    destruct (JS.truthy_string a && JS.truthy_string s && JS.truthy_string e);
      [right|auto].
    eexists. split; [reflexivity|]. discriminate. }
  assert (Hload : loading (loadQueue st replies) = loading st).
  { destruct replies as [r|]; [|reflexivity]. unfold loadQueue.
    repeat match goal with
           | |- context [match ?x with _ => _ end] => destruct x
           end; reflexivity. }
  assert (Hrest :
    snd (run st (UseWebSocket.queueEvents replies message)) = []
    /\ loading (fst (run st (UseWebSocket.queueEvents replies message))) = loading st
    /\ (UseWebSocket.type message <> "new_approval"%string ->
        currentItem (fst (run st (UseWebSocket.queueEvents replies message)))
          = currentItem st
        /\ selectedOption (fst (run st (UseWebSocket.queueEvents replies message)))
           = selectedOption st)).
  { unfold UseWebSocket.queueEvents.
    destruct Hcases as [H | (cb & H & Hnew)]; rewrite H; simpl; [auto|].
    destruct cb; simpl; auto.
    split; [reflexivity|]. split; [exact Hload|].
    intros Hne. now destruct (Hne (Hnew _ eq_refl)). }
  destruct Hrest as (Hsent & Hloading & Hkeep).
  split; [|split; [exact Hsent|split; [exact Hloading|split; [|split; [|split]]]]].
  - destruct Hcases as [H | (cb & H & _)]; rewrite H; simpl; lia.
  - intros a s p Hty Ha Hna Hs Hns Hp.
    unfold UseWebSocket.queueEvents, UseWebSocket.onmessage.
    rewrite Hty, Ha, Hs, Hp. simpl. unfold JS.truthy_string.
    destruct (String.eqb_spec a ""); [contradiction|].
    destruct (String.eqb_spec s ""); [contradiction|]. reflexivity.
  - unfold UseWebSocket.queueEvents, UseWebSocket.onmessage.
    intros [Hty | Hty]; rewrite Hty; simpl.
    + destruct (UseWebSocket.asset_id message) as [a|]; [|reflexivity].
      destruct (UseWebSocket.step_id message) as [s|]; [|reflexivity].
      destruct (JS.truthy_string a && JS.truthy_string s); reflexivity.
    + destruct (UseWebSocket.asset_id message) as [a|]; [|reflexivity].
      destruct (UseWebSocket.step_id message) as [s|]; [|reflexivity].
      destruct (UseWebSocket.error message) as [e|]; [|reflexivity].
      destruct (JS.truthy_string a && JS.truthy_string s && JS.truthy_string e);
        reflexivity.
  - intros i Hty Hi.
    unfold UseWebSocket.queueEvents, UseWebSocket.onmessage.
    rewrite Hty, Hi. reflexivity.
  - exact Hkeep.
Qed.

(** A progress of 0 is passed on; an empty asset id is not. *)
Example progress_zero_is_delivered :
  UseWebSocket.onmessage
    (UseWebSocket.mkMessage "generation_progress" None None None
       (Some "a"%string) (Some "portrait"%string) (Some 0) None)
  = [UseWebSocket.onProgress "a" "portrait" 0]
  /\ UseWebSocket.onmessage
       (UseWebSocket.mkMessage "generation_progress" None None None
          (Some ""%string) (Some "portrait"%string) (Some 40) None)
     = [].
Proof. split; reflexivity. Qed.

End WebSocketFacts.

(** ** The screens of the application *)

Section AppFacts.
Import App.

Lemma run_snoc (st : State) (events : list Event) (e : Event) :
  run st (events ++ [e]) = step (run st events) e.
Proof. unfold run. now rewrite foldl_app. Qed.

(** X23: the wizard reaches the queue by nothing but a start of the
    generation that succeeded, and that reply moves it there whatever is on
    screen when it arrives; a failed start changes nothing.  Going to the
    menu, choosing a mode or a health check never changes the wizard step,
    and once the results are shown no click leads to any other step. *)
Theorem wizard_queue_needs_started_run (st : State) (e : Event) :
  (interactiveStep (step st e) = queue ->
   interactiveStep st = queue \/ e = StartSettled true)
  /\ interactiveStep (step st (StartSettled true)) = queue
  /\ step st (StartSettled false) = st
  /\ (forall ok,
        interactiveStep (step st ChooseInteractive) = interactiveStep st
        /\ interactiveStep (step st ChooseClassic) = interactiveStep st
        /\ interactiveStep (step st BackToMenu) = interactiveStep st
        /\ interactiveStep (step st (HealthChecked ok)) = interactiveStep st)
  /\ (forall events,
        interactiveStep st = results ->
        Forall (fun e => is_click e = true) events ->
        interactiveStep (run st events) = results).
Proof.
  split; [|split; [|split; [|split]]].
  - unfold step, screen.
    destruct e; destruct (connected st); simpl;
      destruct (mode st) as [[]|]; simpl;
      destruct (interactiveStep st) eqn:Hs; simpl;
      try destruct (activeTab st); try destruct started; simpl;
      intros H; try congruence; auto.
  - unfold step. now destruct (screen st).
  - unfold step. now destruct (screen st).
  - intros ok. unfold step, screen.
    destruct (connected st); simpl; destruct (mode st) as [[]|]; simpl;
      destruct (interactiveStep st) eqn:Hs; simpl; auto.
  - intros events Hres Hall.
    induction events as [|e' events IH] using rev_ind; [exact Hres|].
    apply Forall_app in Hall as [Hall He]. rewrite Forall_singleton in He.
    specialize (IH Hall). rewrite run_snoc. revert IH.
    generalize (run st events). intros s IH.
    unfold step, screen.
    destruct e'; try discriminate He; destruct (connected s); simpl;
      destruct (mode s) as [[]|]; simpl; rewrite ?IH; simpl;
      try destruct (activeTab s); simpl; try exact IH; reflexivity.
Qed.

(** The reply to a start that was sent before the user went back to the
    menu: on return the wizard shows the queue. *)
Example start_reply_after_leaving :
  let st := mkState true (Some interactive) style [] None tab_queue in
  screen (run st [StyleNext ArtDirectionStyle.DEFAULT_STYLE []; BackToMenu;
                  StartSettled true])
  = Menu
  /\ screen (run st [StyleNext ArtDirectionStyle.DEFAULT_STYLE []; BackToMenu;
                     StartSettled true; ChooseInteractive])
     = Wizard queue.
Proof. split; reflexivity. Qed.

(** The step bar on the results screen: the header is drawn, and since
    [results] is not among the four steps listed, none shows as complete
    and none as current. *)
Example step_bar_on_results :
  showsHeader (mkState true (Some interactive) results [] None tab_queue) = true
  /\ indicators results
     = [(false, false); (false, false); (false, false); (false, false)]
  /\ indicators style
     = [(true, false); (true, false); (false, true); (false, false)].
Proof. repeat split; reflexivity. Qed.

(** X24: while the back end is unreachable the connecting screen is shown
    whatever the mode, and no click has any effect; when the connection is
    back the screen is the one that was shown before it was lost. *)
Theorem connection_loss_keeps_place (st : State) :
  (connected st = false ->
   screen st = Connecting
   /\ forall e, is_click e = true -> step st e = st)
  /\ (connected st = true ->
      forall clicks,
        Forall (fun e => is_click e = true) clicks ->
        run (step st (HealthChecked false)) (clicks ++ [HealthChecked true]) = st)
  /\ (screen st = Connecting <-> connected st = false).
Proof.
  assert (Hdead : forall s, connected s = false ->
            forall e, is_click e = true -> step s e = s).
  { intros s Hc e He. unfold step, screen. rewrite Hc. simpl.
    destruct e; try reflexivity; discriminate He. }
  split; [|split].
  - intros Hc. split; [unfold screen; now rewrite Hc | now apply Hdead].
  - intros Hc clicks Hall. rewrite run_snoc.
    assert (run (step st (HealthChecked false)) clicks
            = step st (HealthChecked false)) as ->.
    { induction clicks as [|e clicks IH] using rev_ind; [reflexivity|].
      apply Forall_app in Hall as [Hall He]. rewrite Forall_singleton in He.
      rewrite run_snoc, (IH Hall). now apply Hdead. }
    destruct st as [c m s p sty t]. simpl in Hc. subst c. reflexivity.
  - unfold screen. destruct (connected st); simpl.
    + destruct (mode st) as [[]|]; split; discriminate.
    + split; reflexivity.
Qed.

End AppFacts.

(** ** The per-step block of the style page, and small computations *)

Section StylePageMore.
Import ArtDirectionStyle.

(** X25: the Per-Step Configuration block of the style page is all or
    nothing.  When some step makes an image or a sprite the block lists
    every step of the pipeline, text steps included, in pipeline order;
    when none does, the block lists no step, so no prompt can be edited
    there. *)
Theorem per_step_block_all_or_nothing (updatedPipeline : list PipelineStep.t) :
  (Exists (fun s => PipelineStep.type s = "generate_image"%string
                    \/ PipelineStep.type s = "generate_sprite"%string)
          updatedPipeline ->
   perStepConfiguration updatedPipeline = updatedPipeline)
  /\ (Forall (fun s => PipelineStep.type s <> "generate_image"%string
                       /\ PipelineStep.type s <> "generate_sprite"%string)
             updatedPipeline ->
      perStepConfiguration updatedPipeline = [])
  /\ (perStepConfiguration updatedPipeline = updatedPipeline
      \/ perStepConfiguration updatedPipeline = []).
Proof.
  unfold perStepConfiguration.
  split; [|split].
  - intros Hex.
    assert (imageSteps updatedPipeline <> []) as Hne.
    { apply Exists_exists in Hex as (s & Hin & Hty).
      intros Hnil.
      assert (s ∈ imageSteps updatedPipeline) as Hs.
      { unfold imageSteps. apply list_elem_of_filter. split; [|exact Hin].
        destruct Hty as [-> | ->].
        - apply list_elem_of_here.
        - apply list_elem_of_further, list_elem_of_here. }
      rewrite Hnil in Hs. now apply elem_of_nil in Hs. }
    destruct (imageSteps updatedPipeline); [contradiction|reflexivity].
  - intros Hall.
    assert (imageSteps updatedPipeline = []) as ->; [|reflexivity].
    unfold imageSteps. apply filter_drops_all.
    intros s Hs Hin. rewrite Forall_forall in Hall.
    destruct (Hall s Hs) as [H1 H2].
    apply elem_of_cons in Hin as [Hin | Hin]; [contradiction|].
    apply list_elem_of_singleton in Hin. contradiction.
  - destruct (0 <? Z.of_nat (length (imageSteps updatedPipeline))); auto.
Qed.

(** A pipeline of text steps only has nothing to configure; adding one
    image step brings the text step into the block as well. *)
Example text_only_pipeline_has_no_block :
  perStepConfiguration [Sample.step_ "name" "generate_name" 4] = []
  /\ perStepConfiguration Sample.pipeline = Sample.pipeline.
Proof. split; reflexivity. Qed.

(** A whole drag: the first of three steps is taken, carried over the
    second and the third, and dropped. *)
Example drag_first_step_to_the_end :
  let a := Sample.step_ "research" "research" 1 in
  let b := Sample.step_ "name" "generate_name" 4 in
  let c := Sample.step_ "portrait" "generate_image" 4 in
  let st0 := FlowSetupDrag.handleDragStart 0 (FlowSetupDrag.mkState [a; b; c] None) in
  match FlowSetupDrag.handleDragOver 1 st0 with
  | JS.Ok st1 =>
      match FlowSetupDrag.handleDragOver 2 st1 with
      | JS.Ok st2 =>
          FlowSetupDrag.handleDragEnd st2 = FlowSetupDrag.mkState [b; c; a] None
      | JS.Throws => False
      end
  | JS.Throws => False
  end.
Proof. reflexivity. Qed.

(** The address of the socket follows the scheme of the API address. *)
Example websocket_url_follows_scheme :
  Client.getWebSocketUrl "http://localhost:8000" = "ws://localhost:8000/ws"%string
  /\ Client.getWebSocketUrl "https://art.example" = "wss://art.example/ws"%string
  /\ Client.getWebSocketUrl "/api" = "/api/ws"%string.
Proof. repeat split; reflexivity. Qed.

End StylePageMore.
